(** * Motion command arbitration of the car control console

    A shallow embedding of the browser scripts that drive the vehicle:
    - [controls.js]: virtual joystick, speed slider, keyboard, [setMovement],
      [sendMovementCommand], [updateButtonState];
    - [voice.js]: [processVoiceCommand], [executeVoiceCommand], and the
      recognition toggle ([toggleVoiceRecognition], [startVoiceRecognition],
      [stopVoiceRecognition]);
    - [map.js]: [startNavigation];
    - [main.js]: [API_CONFIG], [callApi], and the level and colour computed
      by [updateBatteryStatus].

    Conventions of the embedding.
    - In the model of the page a JavaScript number is a real number;
      [Math.sqrt], [Math.atan2], [Math.cos], [Math.sin], [Math.min] and
      [Math.round] are their exact mathematical counterparts.  Values
      produced by [parseInt] on the range slider and by [Math.round] are
      integers and are kept in [Z].  The code computes in IEEE doubles: what
      is proved on the page is what their rounding leaves alone (the values
      at the centre and on the diagonals, bounds, invariants, counts of
      commands, frames).
    - The arithmetic of the command that a joystick move sends is embedded a
      second time, operation by operation over IEEE doubles, in [Module
      Double]; what depends on rounding is proved there.
    - The page is one record [Page]; every handler is a computation in the
      monad [M] of state and JavaScript exceptions, written statement by
      statement in the order of the source.
    - [document.getElementById] looks the id up in the list of ids the
      document holds; dereferencing a missing element throws a [TypeError].
    - An [async] function runs synchronously up to its first [await]; its
      continuation is a separate handler run when the fetch settles.
    - [console.error] calls are recorded; [console.log] calls, CSS styling
      and [preventDefault] are left out. *)

From Stdlib Require Import QArith Floats.
From Stdlib Require Import Reals Lra Lia ZArith List Bool.
From Stdlib Require Import Ascii String DecimalString.
Import ListNotations.

Local Open Scope string_scope.
Local Open Scope list_scope.
Local Open Scope Z_scope.

(** ** JavaScript values shared by the scripts *)

(** The direction strings of the movement API. *)
Inductive Direction : Type :=
| Forward
| Backward
| Left
| Right
| Stop.

(** The string the direction stands for: element ids are built from it. *)
Definition direction_name (d : Direction) : string :=
  match d with
  | Forward => "forward"
  | Backward => "backward"
  | Left => "left"
  | Right => "right"
  | Stop => "stop"
  end.

(** Outcome of evaluating a statement or a promise: a value, or a thrown
    error carrying its message. *)
Inductive Completion (A : Type) : Type :=
| Normal (a : A)
| Throw (message : string).

Arguments Normal {A} a.
Arguments Throw {A} message.

(** *** Numbers *)

Definition Rltb (x y : R) : bool := if Rlt_dec x y then true else false.
Definition Rleb (x y : R) : bool := if Rle_dec x y then true else false.

(** [Math.floor] and [Math.round] (halves go up). *)
Definition Math_floor (x : R) : Z := up x - 1.
Definition Math_round (x : R) : Z := Math_floor (x + / 2)%R.

(** [Math.atan2(y, x)]: the angle of the point [(x, y)], in (-PI, PI], and 0
    at the origin. *)
Definition Math_atan2 (y x : R) : R :=
  if Rltb 0 x then atan (y / x)
  else if Rltb x 0 then
         if Rleb 0 y then (atan (y / x) + PI)%R else (atan (y / x) - PI)%R
  else if Rltb 0 y then (PI / 2)%R
  else if Rltb y 0 then (- (PI / 2))%R
  else 0%R.

(** *** Strings *)

(** [String.prototype.includes]. *)
Fixpoint includes (s sub : string) : bool :=
  if prefix sub s then true
  else match s with
       | EmptyString => false
       | String _ s' => includes s' sub
       end.

(** [String.prototype.toLowerCase] on ASCII text. *)
Definition lower_ascii (c : ascii) : ascii :=
  let n := nat_of_ascii c in
  if (Nat.leb 65 n && Nat.leb n 90)%bool then ascii_of_nat (n + 32) else c.

Fixpoint toLowerCase (s : string) : string :=
  match s with
  | EmptyString => EmptyString
  | String c s' => String (lower_ascii c) (toLowerCase s')
  end.

(** Decimal rendering of an integer inside a template string. *)
Definition Z_to_string (z : Z) : string := NilZero.string_of_int (Z.to_int z).

(** ** The page state *)

(** [currentMovement] of [initMovementControls]: the joystick vector and the
    cruise speed. *)
Record Movement : Type := mkMovement {
  angle : R;
  distance : R;
  speed : Z }.

(** The variables captured by the handlers of [initMovementControls]. *)
Record Joystick : Type := mkJoystick {
  currentMovement : Movement;
  isDragging : bool;
  startX : R;
  startY : R;
  currentX : R;
  currentY : R }.

(** Maximum joystick movement radius. *)
Definition maxDistance : R := 50.

(** The object literal [setMovement] assigns to [currentMovement].  That
    function is declared at the top level of the script, outside the scope
    of the joystick's [let currentMovement], so the assignment creates a
    property of the global object; the literal has [angle] and [distance]
    only when the direction is [stop]. *)
Record MovementObject : Type := mkMovementObject {
  obj_angle : option R;
  obj_distance : option R;
  obj_direction : Direction;
  obj_speed : Z }.

(** [getBoundingClientRect()] of the joystick base. *)
Record Rect : Type := mkRect {
  rect_left : R;
  rect_top : R;
  rect_width : R;
  rect_height : R }.

(** The part of the document the scripts read and write. *)
Record Dom : Type := mkDom {
  ids : list string;                 (* ids of the elements present *)
  wired : bool;                      (* direction buttons call setMovement *)
  speedSlider : Z;                   (* value of #speed-slider *)
  destinationOptions : list string;  (* option values of #destination-select *)
  destinationValue : string;         (* value of #destination-select *)
  joystickRect : Rect;
  activeButton : option Direction;   (* button highlighted last *)
  voiceOutput : string }.

(** Parsed body of a service reply, as far as the scripts look into it. *)
Record ApiResponse : Type := mkApiResponse {
  success : bool;
  error : option string;
  data_response : option string }.

(** How a [fetch] settles: the promise rejects, or a response arrives whose
    [json()] parses or throws. *)
Inductive FetchOutcome : Type :=
| fetch_rejected (message : string)
| fetch_resolved (ok : bool) (status : Z) (json : Completion ApiResponse).

Inductive Body : Type :=
| MovementBody (direction : Direction) (speed : Z)
| MapBody (action : string) (destination : string)
| VoiceBody (command : string).

(** One call of [fetch(url, options)]. *)
Record Request : Type := mkRequest {
  url : string;
  method : string;
  body : option Body }.

Inductive ConsoleEntry : Type :=
| console_error (text : string) (detail : option string)
| uncaught (message : string).

(** The callbacks handed to [setTimeout]. *)
Inductive Callback : Type :=
| ClickStopButton                        (* voice auto-stop *)
| ClearTransition                        (* end of the handle animation *)
| DisplayAIResponse (r : ApiResponse).   (* delayed reply of the assistant *)

Record Page : Type := mkPage {
  dom : Dom;
  joy : Joystick;
  window_currentMovement : option MovementObject;
  requests : list Request;               (* fetch calls, oldest first *)
  console : list ConsoleEntry;           (* oldest first *)
  timers : list (Z * Callback);          (* pending, by due time *)
  now : Z;                               (* milliseconds *)
  clicks : list string }.                (* click() calls, oldest first *)

(** *** Field updates *)

Definition with_dom (f : Dom -> Dom) (p : Page) : Page :=
  mkPage (f (dom p)) (joy p) (window_currentMovement p) (requests p)
         (console p) (timers p) (now p) (clicks p).

Definition with_joy (f : Joystick -> Joystick) (p : Page) : Page :=
  mkPage (dom p) (f (joy p)) (window_currentMovement p) (requests p)
         (console p) (timers p) (now p) (clicks p).

Definition with_window_currentMovement (o : MovementObject) (p : Page) : Page :=
  mkPage (dom p) (joy p) (Some o) (requests p)
         (console p) (timers p) (now p) (clicks p).

Definition with_requests (f : list Request -> list Request) (p : Page) : Page :=
  mkPage (dom p) (joy p) (window_currentMovement p) (f (requests p))
         (console p) (timers p) (now p) (clicks p).

Definition with_console (f : list ConsoleEntry -> list ConsoleEntry)
  (p : Page) : Page :=
  mkPage (dom p) (joy p) (window_currentMovement p) (requests p)
         (f (console p)) (timers p) (now p) (clicks p).

Definition with_timers (f : list (Z * Callback) -> list (Z * Callback))
  (p : Page) : Page :=
  mkPage (dom p) (joy p) (window_currentMovement p) (requests p)
         (console p) (f (timers p)) (now p) (clicks p).

Definition with_now (f : Z -> Z) (p : Page) : Page :=
  mkPage (dom p) (joy p) (window_currentMovement p) (requests p)
         (console p) (timers p) (f (now p)) (clicks p).

Definition with_clicks (f : list string -> list string) (p : Page) : Page :=
  mkPage (dom p) (joy p) (window_currentMovement p) (requests p)
         (console p) (timers p) (now p) (f (clicks p)).

Definition set_speedSlider (v : Z) (d : Dom) : Dom :=
  mkDom (ids d) (wired d) v (destinationOptions d) (destinationValue d)
        (joystickRect d) (activeButton d) (voiceOutput d).

(** Assigning [select.value]: the option with that value becomes selected;
    when there is none the select is left without selection. *)
Definition set_destinationValue (v : string) (d : Dom) : Dom :=
  mkDom (ids d) (wired d) (speedSlider d) (destinationOptions d)
        (if existsb (String.eqb v) (destinationOptions d) then v else "")
        (joystickRect d) (activeButton d) (voiceOutput d).

Definition set_activeButton (a : Direction) (d : Dom) : Dom :=
  mkDom (ids d) (wired d) (speedSlider d) (destinationOptions d)
        (destinationValue d) (joystickRect d) (Some a) (voiceOutput d).

Definition set_voiceOutput (s : string) (d : Dom) : Dom :=
  mkDom (ids d) (wired d) (speedSlider d) (destinationOptions d)
        (destinationValue d) (joystickRect d) (activeButton d) s.

Definition set_currentMovement (m : Movement) (j : Joystick) : Joystick :=
  mkJoystick m (isDragging j) (startX j) (startY j) (currentX j) (currentY j).

Definition set_isDragging (b : bool) (j : Joystick) : Joystick :=
  mkJoystick (currentMovement j) b (startX j) (startY j)
             (currentX j) (currentY j).

Definition set_start (x y : R) (j : Joystick) : Joystick :=
  mkJoystick (currentMovement j) (isDragging j) x y (currentX j) (currentY j).

Definition set_current (x y : R) (j : Joystick) : Joystick :=
  mkJoystick (currentMovement j) (isDragging j) (startX j) (startY j) x y.

(** ** Handlers: state and exceptions *)

Definition M (A : Type) : Type := Page -> Completion A * Page.

Definition ret {A : Type} (a : A) : M A := fun p => (Normal a, p).

Definition bind {A B : Type} (m : M A) (k : A -> M B) : M B :=
  fun p =>
    match m p with
    | (Normal a, p') => k a p'
    | (Throw e, p') => (Throw e, p')
    end.

Definition throw {A : Type} (message : string) : M A :=
  fun p => (Throw message, p).

Definition gets {A : Type} (f : Page -> A) : M A := fun p => (Normal (f p), p).

Definition modify (f : Page -> Page) : M unit := fun p => (Normal tt, f p).

(** [try { body } catch (error) { handler(error.message) }]. *)
Definition try_catch {A : Type} (body : M A) (handler : string -> M A) : M A :=
  fun p =>
    match body p with
    | (Normal a, p') => (Normal a, p')
    | (Throw e, p') => handler e p'
    end.

(** A value or an exception computed without the page. *)
Definition lift {A : Type} (c : Completion A) : M A := fun p => (c, p).

Declare Scope js_scope.
Delimit Scope js_scope with js.
Notation "x <- c ;; k" := (bind c (fun x => k))
  (at level 61, c at next level, right associativity) : js_scope.
Notation "c ;; k" := (bind c (fun _ => k))
  (at level 61, right associativity) : js_scope.
Local Open Scope js_scope.

Fixpoint forEach {A : Type} (l : list A) (f : A -> M unit) : M unit :=
  match l with
  | [] => ret tt
  | a :: l' => f a ;; forEach l' f
  end.

(** The state a handler leaves behind, whether it returned or threw. *)
Definition exec {A : Type} (m : M A) (p : Page) : Page := snd (m p).

(** *** Document and console primitives *)

Definition getElementById (id : string) : M bool :=
  gets (fun p => existsb (String.eqb id) (ids (dom p))).

(** Reading a property or calling a method of what [getElementById]
    returned. *)
Definition element (id : string) : M unit :=
  present <- getElementById id ;;
  if present then ret tt
  else throw "TypeError: Cannot read properties of null".

Definition error_log (text : string) (detail : option string) : M unit :=
  modify (with_console (fun l => l ++ [console_error text detail])).

Definition fetch (r : Request) : M unit :=
  modify (with_requests (fun l => l ++ [r])).

Fixpoint insert_timer (t : Z * Callback) (l : list (Z * Callback))
  : list (Z * Callback) :=
  match l with
  | [] => [t]
  | u :: l' => if fst t <? fst u then t :: l else u :: insert_timer t l'
  end.

Definition setTimeout (cb : Callback) (delay : Z) : M unit :=
  modify (fun p => with_timers (insert_timer (now p + delay, cb)) p).

(** The body of an [async] function up to its first [await]: an exception
    rejects the returned promise instead of reaching the caller. *)
Definition async (m : M unit) : M unit :=
  try_catch m (fun e => modify (with_console (fun l => l ++ [uncaught e]))).

(** An event listener as the browser runs it: an exception it lets escape
    is reported on the console. *)
Definition listener (m : M unit) : M unit :=
  try_catch m (fun e => modify (with_console (fun l => l ++ [uncaught e]))).

(** ** main.js *)

Definition API_CONFIG_baseUrl : string := "http://localhost:5000/api".
Definition API_CONFIG_endpoints_movement : string := "/movement".
Definition API_CONFIG_endpoints_map : string := "/map".
Definition API_CONFIG_endpoints_voice : string := "/voice".

(** [callApi] up to [await fetch(url, options)]. *)
Definition callApi (endpoint method : string) (data : option Body) : M unit :=
  let url := (API_CONFIG_baseUrl ++ endpoint)%string in
  fetch (mkRequest url method data).

(** The [try] block of [callApi] once the fetch has settled. *)
Definition callApi_try (o : FetchOutcome) : Completion ApiResponse :=
  match o with
  | fetch_rejected message => Throw message
  | fetch_resolved ok status json =>
      if negb ok
      then Throw ("API call failed: " ++ Z_to_string status)%string
      else json
  end.

(** The rest of [callApi], run when the fetch has settled: the [catch]
    clause logs the error and turns it into a reply object. *)
Definition callApi_settled (o : FetchOutcome) : M ApiResponse :=
  try_catch
    (lift (callApi_try o))
    (fun message =>
       error_log "API call error:" (Some message) ;;
       ret (mkApiResponse false (Some message) None)).

(** ** controls.js *)

Definition button_id (d : Direction) : string :=
  (direction_name d ++ "-btn")%string.

(** Resets the five buttons in the order of the object literal, then
    highlights the active one. *)
Definition updateButtonState (activeDirection : Direction) : M unit :=
  forEach [Forward; Left; Right; Backward; Stop]
          (fun d => element (button_id d)) ;;
  modify (with_dom (set_activeButton activeDirection)).

(** [sendMovementCommand] up to [await callApi(...)]. *)
Definition sendMovementCommand (direction : Direction) (speed : Z) : M unit :=
  callApi API_CONFIG_endpoints_movement "POST"
          (Some (MovementBody direction speed)).

(** The rest of [sendMovementCommand], run when the call has settled. *)
Definition sendMovementCommand_settled (o : FetchOutcome) : M unit :=
  try_catch
    (response <- callApi_settled o ;;
     if success response then ret tt
     else error_log "Failed to send movement command:" (error response))
    (fun e => error_log "Error sending movement command:" (Some e)).

Definition setMovement (direction : Direction) : M unit :=
  element "speed-slider" ;;
  speed <- gets (fun p => speedSlider (dom p)) ;;
  modify (with_window_currentMovement
            (match direction with
             | Stop => mkMovementObject (Some 0%R) (Some 0%R) direction speed
             | _ => mkMovementObject None None direction speed
             end)) ;;
  sendMovementCommand direction speed ;;
  updateButtonState direction.

Record KeyboardEvent : Type := mkKeyboardEvent {
  key : string;
  target_tagName : string }.

Definition in_form_control (e : KeyboardEvent) : bool :=
  String.eqb (target_tagName e) "INPUT"
  || String.eqb (target_tagName e) "TEXTAREA"
  || String.eqb (target_tagName e) "SELECT".

Definition handleKeyDown (e : KeyboardEvent) : M unit :=
  if in_form_control e then ret tt
  else if String.eqb (key e) "ArrowUp" then setMovement Forward
  else if String.eqb (key e) "ArrowDown" then setMovement Backward
  else if String.eqb (key e) "ArrowLeft" then setMovement Left
  else if String.eqb (key e) "ArrowRight" then setMovement Right
  else if String.eqb (key e) " " then setMovement Stop
  else ret tt.

Definition handleKeyUp (e : KeyboardEvent) : M unit :=
  if in_form_control e then ret tt
  else if existsb (String.eqb (key e))
                  ["ArrowUp"; "ArrowDown"; "ArrowLeft"; "ArrowRight"]
       then setMovement Stop
       else ret tt.

(** *** The joystick of [initMovementControls] *)

Inductive PointerEvent : Type :=
| MouseEvent (clientX clientY : R)
| TouchEvent (touches : list (R * R)).

(** [e.type.includes('touch') ? e.touches[0] : e], as a point; there is
    none when a touch event has an empty [touches] list. *)
Definition pointer (e : PointerEvent) : option (R * R) :=
  match e with
  | MouseEvent x y => Some (x, y)
  | TouchEvent (t :: _) => Some t
  | TouchEvent [] => None
  end.

Definition client (e : PointerEvent) : M (R * R) :=
  match pointer e with
  | Some c => ret c
  | None => throw "TypeError: Cannot read properties of undefined"
  end.

(** The cascade of comparisons of [updateMovement]. *)
Definition directionOf (angleDeg : R) : Direction :=
  if Rltb (-45) angleDeg && Rleb angleDeg 45 then Right
  else if Rltb 45 angleDeg && Rleb angleDeg 135 then Backward
  else if Rltb 135 angleDeg || Rleb angleDeg (-135) then Left
  else Forward.

Definition updateMovement : M unit :=
  m <- gets (fun p => currentMovement (joy p)) ;;
  let angleDeg := (angle m * (180 / PI))%R in
  let direction := directionOf angleDeg in
  let scaledSpeed := Math_round (IZR (speed m) * distance m) in
  sendMovementCommand direction scaledSpeed.

Definition handleMove (e : PointerEvent) : M unit :=
  dragging <- gets (fun p => isDragging (joy p)) ;;
  if negb dragging then ret tt
  else
    c <- client e ;;
    j <- gets joy ;;
    let deltaX := (fst c - startX j)%R in
    let deltaY := (snd c - startY j)%R in
    let dist := Rmin (sqrt (deltaX * deltaX + deltaY * deltaY)) maxDistance in
    let ang := Math_atan2 deltaY deltaX in
    modify (with_joy (set_current (cos ang * dist) (sin ang * dist))) ;;
    modify (with_joy (fun j =>
      set_currentMovement
        (mkMovement ang (dist / maxDistance) (speed (currentMovement j))) j)) ;;
    updateMovement.

Definition handleStart (e : PointerEvent) : M unit :=
  modify (with_joy (set_isDragging true)) ;;
  rect <- gets (fun p => joystickRect (dom p)) ;;
  modify (with_joy (set_start (rect_left rect + rect_width rect / 2)
                              (rect_top rect + rect_height rect / 2))) ;;
  handleMove e.

Definition handleEnd : M unit :=
  dragging <- gets (fun p => isDragging (joy p)) ;;
  if negb dragging then ret tt
  else
    modify (with_joy (set_isDragging false)) ;;
    modify (with_joy (set_current 0 0)) ;;
    modify (with_joy (fun j =>
      set_currentMovement (mkMovement 0 0 (speed (currentMovement j))) j)) ;;
    sendMovementCommand Stop 0 ;;
    updateButtonState Stop ;;
    setTimeout ClearTransition 200.

(** The listener of the speed slider's [input] event. *)
Definition speedSlider_input : M unit :=
  v <- gets (fun p => speedSlider (dom p)) ;;
  modify (with_joy (fun j =>
    set_currentMovement
      (mkMovement (angle (currentMovement j)) (distance (currentMovement j)) v)
      j)) ;;
  m <- gets (fun p => currentMovement (joy p)) ;;
  if Rltb 0 (distance m) then updateMovement else ret tt.

(** ** map.js *)

(** [startNavigation] up to [await callApi(...)]. *)
Definition startNavigation : M unit :=
  element "destination-select" ;;
  destination <- gets (fun p => destinationValue (dom p)) ;;
  if String.eqb destination ""
  then error_log "Please select a destination" None
  else callApi API_CONFIG_endpoints_map "POST"
               (Some (MapBody "navigate" destination)).

(** ** Clicks *)

Definition direction_of_button (id : string) : option Direction :=
  find (fun d => String.eqb id (button_id d))
       [Forward; Backward; Left; Right; Stop].

(** Modelled from the spec: the click listeners of the five direction
    buttons, which no script and no markup of the sources registers.  When
    the page is [wired], pressing a direction button sets that direction at
    the current cruise speed through [setMovement]; otherwise the buttons
    have no listener. *)
Definition button_listener (id : string) : M unit :=
  isWired <- gets (fun p => wired (dom p)) ;;
  match direction_of_button id with
  | Some d => if isWired then setMovement d else ret tt
  | None => ret tt
  end.

(** [document.getElementById(id).click()]: the listeners run before the call
    returns, and what they throw is reported without reaching the caller.
    [initMap] registers [startNavigation] on the navigate button; the
    listeners of the mapping buttons are not followed. *)
Definition click (id : string) : M unit :=
  element id ;;
  modify (with_clicks (fun l => l ++ [id])) ;;
  listener (if String.eqb id "navigate-btn" then async startNavigation
            else button_listener id).

(** ** voice.js *)

Definition displayAIResponse (response : string) : M unit :=
  modify (with_dom (set_voiceOutput response)).

Definition executeVoiceCommand (command : string) : M unit :=
  let cmd := toLowerCase command in
  if includes cmd "forward" || includes cmd "ahead" then
    click "forward-btn" ;; setTimeout ClickStopButton 2000
  else if includes cmd "left" then
    click "left-btn" ;; setTimeout ClickStopButton 2000
  else if includes cmd "right" then
    click "right-btn" ;; setTimeout ClickStopButton 2000
  else if includes cmd "back" then
    click "backward-btn" ;; setTimeout ClickStopButton 2000
  else if includes cmd "stop" then
    click "stop-btn"
  else if includes cmd "go to" then
    element "destination-select" ;;
    (if includes cmd "living room" then
       modify (with_dom (set_destinationValue "living-room"))
     else if includes cmd "kitchen" then
       modify (with_dom (set_destinationValue "kitchen"))
     else if includes cmd "bedroom" then
       modify (with_dom (set_destinationValue "bedroom"))
     else ret tt) ;;
    destination <- gets (fun p => destinationValue (dom p)) ;;
    if negb (String.eqb destination "") then click "navigate-btn" else ret tt
  else if includes cmd "start mapping" then
    click "start-mapping"
  else if includes cmd "save map" || includes cmd "save the map" then
    click "save-map"
  else if includes cmd "load map" || includes cmd "load the map" then
    click "load-map"
  else ret tt.

Definition double_quote : string := String (ascii_of_nat 34) EmptyString.

(** [processVoiceCommand] up to [await callApi(...)]. *)
Definition processVoiceCommand (command : string) : M unit :=
  modify (with_dom (set_voiceOutput
                      (double_quote ++ command ++ double_quote)%string)) ;;
  callApi API_CONFIG_endpoints_voice "POST" (Some (VoiceBody command)).

(** The rest of [processVoiceCommand], run when the call has settled. *)
Definition processVoiceCommand_settled (command : string) (o : FetchOutcome)
  : M unit :=
  try_catch
    (response <- callApi_settled o ;;
     if success response then
       setTimeout (DisplayAIResponse response) 1000 ;;
       executeVoiceCommand command
     else
       error_log "Failed to process voice command:" (error response) ;;
       displayAIResponse "Sorry, I could not process that command.")
    (fun e =>
       error_log "Error processing voice command:" (Some e) ;;
       displayAIResponse "Sorry, there was an error processing your command.").

(** ** The event loop *)

Definition run_callback (cb : Callback) : M unit :=
  match cb with
  | ClickStopButton => click "stop-btn"
  | ClearTransition => ret tt
  | DisplayAIResponse r =>
      match data_response r with
      | Some text => displayAIResponse text
      | None => throw "TypeError: Cannot read properties of undefined"
      end
  end.

Inductive Event : Type :=
| PointerDown (e : PointerEvent)    (* mousedown, touchstart on the base *)
| PointerMove (e : PointerEvent)    (* mousemove, touchmove on the document *)
| PointerUp                         (* mouseup, touchend on the document *)
| SliderInput (value : Z)           (* the user moves the speed slider *)
| KeyDown (e : KeyboardEvent)
| KeyUp (e : KeyboardEvent)
| Utterance (command : string)      (* a recognised voice command *)
| VoiceSettled (command : string) (o : FetchOutcome)
| MovementSettled (o : FetchOutcome)
| Elapse (ms : Z)                   (* time passes *)
| TimerFires.                       (* the earliest due timer runs *)

(** One task of the event loop. *)
Definition dispatch (h : M unit) (p : Page) : Page := exec (listener h) p.

Definition step (ev : Event) (p : Page) : Page :=
  match ev with
  | PointerDown e => dispatch (handleStart e) p
  | PointerMove e => dispatch (handleMove e) p
  | PointerUp => dispatch handleEnd p
  | SliderInput v =>
      dispatch speedSlider_input (with_dom (set_speedSlider v) p)
  | KeyDown e => dispatch (handleKeyDown e) p
  | KeyUp e => dispatch (handleKeyUp e) p
  | Utterance command => dispatch (async (processVoiceCommand command)) p
  | VoiceSettled command o =>
      dispatch (processVoiceCommand_settled command o) p
  | MovementSettled o => dispatch (sendMovementCommand_settled o) p
  | Elapse ms => with_now (fun t => t + Z.max 0 ms) p
  | TimerFires =>
      match timers p with
      | (due, cb) :: rest =>
          if due <=? now p
          then dispatch (run_callback cb) (with_timers (fun _ => rest) p)
          else p
      | [] => p
      end
  end.

(** Events in arrival order. *)
Definition run (evs : list Event) (p : Page) : Page :=
  fold_left (fun q ev => step ev q) evs p.

(** ** Pages and observations used by the properties *)

(** The ids of [index.html]. *)
Definition index_html_ids : list string :=
  ["camera-panel"; "camera-stream"; "pan-slider"; "pan-value"; "tilt-slider";
   "tilt-value"; "control-panel"; "joystick-container"; "speed-slider";
   "speed-value"; "voice-panel"; "voice-btn"; "voice-output"; "map-panel";
   "slam-map"; "start-mapping"; "save-map"; "load-map"; "location-name";
   "name-location"; "destination-select"; "navigate-btn"; "map-toggle"].

(** The page once [DOMContentLoaded] has run the initialisers, with the
    joystick base laid out as a square of side 100 at the origin. *)
Definition index_html : Page :=
  mkPage
    (mkDom index_html_ids false 50
           [""; "living-room"; "kitchen"; "bedroom"] ""
           (mkRect 0 0 100 100) None
           "Press the microphone to speak...")
    (mkJoystick (mkMovement 0 0 50) false 0 0 0 0)
    None [] [] [] 0 [].

(** The same page with the five direction buttons in the markup, their
    clicks bound to [setMovement] or not. *)
Definition with_buttons (isWired : bool) (p : Page) : Page :=
  with_dom (fun d =>
    mkDom (map button_id [Forward; Left; Right; Backward; Stop] ++ ids d)
          isWired (speedSlider d) (destinationOptions d) (destinationValue d)
          (joystickRect d) (activeButton d) (voiceOutput d)) p.

Definition has_element (id : string) (p : Page) : bool :=
  existsb (String.eqb id) (ids (dom p)).

Definition buttons_present (p : Page) : bool :=
  forallb (fun d => has_element (button_id d) p)
          [Forward; Left; Right; Backward; Stop].

(** The request [sendMovementCommand direction speed] issues. *)
Definition movement_request (direction : Direction) (speed : Z) : Request :=
  mkRequest "http://localhost:5000/api/movement" "POST"
            (Some (MovementBody direction speed)).

Definition navigate_request (destination : string) : Request :=
  mkRequest "http://localhost:5000/api/map" "POST"
            (Some (MapBody "navigate" destination)).

(** The direction a keyboard key selects in [handleKeyDown]. *)
Definition key_direction (k : string) : option Direction :=
  if String.eqb k "ArrowUp" then Some Forward
  else if String.eqb k "ArrowDown" then Some Backward
  else if String.eqb k "ArrowLeft" then Some Left
  else if String.eqb k "ArrowRight" then Some Right
  else if String.eqb k " " then Some Stop
  else None.

Definition arrow_keys : list string :=
  ["ArrowUp"; "ArrowDown"; "ArrowLeft"; "ArrowRight"].

(** A key event whose target is the document body. *)
Definition on_body (k : string) : KeyboardEvent := mkKeyboardEvent k "BODY".

(** The movement rule of [executeVoiceCommand] an utterance falls under. *)
Definition voice_direction (command : string) : option Direction :=
  let cmd := toLowerCase command in
  if includes cmd "forward" || includes cmd "ahead" then Some Forward
  else if includes cmd "left" then Some Left
  else if includes cmd "right" then Some Right
  else if includes cmd "back" then Some Backward
  else if includes cmd "stop" then Some Stop
  else None.

(** The destination the navigation rule of [executeVoiceCommand] names. *)
Definition voice_destination (command : string) : option string :=
  let cmd := toLowerCase command in
  if includes cmd "living room" then Some "living-room"
  else if includes cmd "kitchen" then Some "kitchen"
  else if includes cmd "bedroom" then Some "bedroom"
  else None.


(** The message of a call that failed in transport: the fetch was rejected,
    the status was not a success, or the body was not JSON. *)
Definition transport_failure (o : FetchOutcome) : option string :=
  match o with
  | fetch_rejected message => Some message
  | fetch_resolved false status _ =>
      Some ("API call failed: " ++ Z_to_string status)%string
  | fetch_resolved true _ (Throw message) => Some message
  | fetch_resolved true _ (Normal _) => None
  end.

(** The joystick after a move to offset [(dx, dy)] from the origin of the
    drag. *)
Definition moved (dx dy : R) (j : Joystick) : Joystick :=
  let dist := Rmin (sqrt (dx * dx + dy * dy)) maxDistance in
  let ang := Math_atan2 dy dx in
  mkJoystick (mkMovement ang (dist / maxDistance) (speed (currentMovement j)))
             (isDragging j) (startX j) (startY j)
             (cos ang * dist) (sin ang * dist).

(** The object [setMovement direction] stores when the slider reads
    [speed]. *)
Definition movement_object (direction : Direction) (speed : Z)
  : MovementObject :=
  match direction with
  | Stop => mkMovementObject (Some 0%R) (Some 0%R) direction speed
  | _ => mkMovementObject None None direction speed
  end.

(** The page a listener leaves when it runs [setMovement direction] as its
    last statement: the object is stored and the command sent; then the
    button is highlighted, or, when one of the five buttons is missing, the
    [TypeError] of [updateButtonState] is reported. *)
Definition after_setMovement (direction : Direction) (p : Page) : Page :=
  let p1 :=
    with_requests
      (fun l => l ++ [movement_request direction (speedSlider (dom p))])
      (with_window_currentMovement
         (movement_object direction (speedSlider (dom p))) p) in
  if buttons_present p
  then with_dom (set_activeButton direction) p1
  else with_console
         (fun l => l ++ [uncaught "TypeError: Cannot read properties of null"])
         p1.

(** A computation whose final page is always related to its initial page,
    whether it returns or throws. *)
Definition preserves (rel : Page -> Page -> Prop) {A : Type} (m : M A)
  : Prop :=
  forall p : Page, rel p (snd (m p)).



(** The request [processVoiceCommand command] issues. *)
Definition voice_request (command : string) : Request :=
  mkRequest "http://localhost:5000/api/voice" "POST"
            (Some (VoiceBody command)).

(** Two pages that differ at most in what the console shows. *)
Definition only_console_differs (p q : Page) : Prop :=
  dom q = dom p /\ joy q = joy p
  /\ window_currentMovement q = window_currentMovement p
  /\ requests q = requests p /\ timers q = timers p
  /\ now q = now p /\ clicks q = clicks p.

(** ** Invariants and frames of the joystick and the keyboard *)

(** The joystick vector is a magnitude in [0, 1], and an idle joystick is
    centred. *)
Definition joystick_ok (j : Joystick) : Prop :=
  (0 <= distance (currentMovement j) <= 1)%R
  /\ (isDragging j = false ->
      angle (currentMovement j) = 0%R /\ distance (currentMovement j) = 0%R
      /\ currentX j = 0%R /\ currentY j = 0%R).

(** The cruise speed the joystick scales is the value the slider shows. *)
Definition speed_in_sync (p : Page) : Prop :=
  speed (currentMovement (joy p)) = speedSlider (dom p).

(** The variables of the joystick are untouched. *)
Definition keeps_joy (p q : Page) : Prop := joy q = joy p.

(** The speed slider is untouched. *)
Definition keeps_slider (p q : Page) : Prop :=
  speedSlider (dom q) = speedSlider (dom p).

(** The object stored by [setMovement] is untouched. *)
Definition keeps_window (p q : Page) : Prop :=
  window_currentMovement q = window_currentMovement p.

(** Pointer and slider events, the only ones the joystick listens to. *)
Definition joystick_event (ev : Event) : bool :=
  match ev with
  | PointerDown _ | PointerMove _ | PointerUp | SliderInput _ => true
  | _ => false
  end.

(** ** voice.js: the recognition toggle of [initVoiceInterface] *)

(** The commands the simulated recognition draws from. *)
Definition commands : list string :=
  ["go forward"; "turn left"; "turn right"; "stop"; "go to the living room";
   "go to the kitchen"; "go to the bedroom"; "start mapping"; "save the map";
   "what is your battery level"].

(** The page together with the variables captured by the voice button's
    listener.  The timers of the recognition are kept beside the timers of
    the page, each with the id [setTimeout] returned for it; the animation of
    the voice wave, which is styling, is left out. *)
Record VoiceInterface : Type := mkVoiceInterface {
  voice_page : Page;
  isListening : bool;
  recognitionTimeout : option nat;       (* id held by the variable *)
  recognitionTimers : list (nat * Z);    (* pending: id and due time *)
  nextTimerId : nat }.                   (* id the next setTimeout returns *)

(** [clearTimeout(id)]; clearing [undefined] or a timer that is gone does
    nothing. *)
Definition clearTimeout (id : option nat) (l : list (nat * Z))
  : list (nat * Z) :=
  match id with
  | Some i => filter (fun t => negb (Nat.eqb (fst t) i)) l
  | None => l
  end.

Definition startVoiceRecognition (v : VoiceInterface) : VoiceInterface :=
  mkVoiceInterface
    (with_dom (set_voiceOutput "Listening...") (voice_page v))
    true
    (Some (nextTimerId v))
    (recognitionTimers v ++ [(nextTimerId v, now (voice_page v) + 3000)])
    (S (nextTimerId v)).

Definition stopVoiceRecognition (v : VoiceInterface) : VoiceInterface :=
  mkVoiceInterface
    (voice_page v)
    false
    (recognitionTimeout v)
    (clearTimeout (recognitionTimeout v) (recognitionTimers v))
    (nextTimerId v).

Definition toggleVoiceRecognition (v : VoiceInterface) : VoiceInterface :=
  if isListening v then stopVoiceRecognition v else startVoiceRecognition v.

(** [commands[Math.floor(Math.random() * commands.length)]], for the value
    [random] that [Math.random()] returned. *)
Definition randomCommand (random : R) : string :=
  nth (Z.to_nat (Math_floor (random * 10))) commands "undefined".

(** The callback of the recognition timer. *)
Definition recognition_callback (random : R) (v : VoiceInterface)
  : VoiceInterface :=
  stopVoiceRecognition
    (mkVoiceInterface
       (exec (async (processVoiceCommand (randomCommand random)))
             (voice_page v))
       (isListening v) (recognitionTimeout v) (recognitionTimers v)
       (nextTimerId v)).

Inductive VoiceEvent : Type :=
| VoiceButtonClick                           (* click on the voice button *)
| RecognitionFires (id : nat) (random : R)   (* a recognition timer runs *)
| PageEvent (ev : Event).                    (* any event of the page *)

Definition voice_step (ev : VoiceEvent) (v : VoiceInterface)
  : VoiceInterface :=
  match ev with
  | VoiceButtonClick => toggleVoiceRecognition v
  | RecognitionFires id random =>
      match find (fun t => Nat.eqb (fst t) id) (recognitionTimers v) with
      | Some (_, due) =>
          if due <=? now (voice_page v)
          then recognition_callback random
                 (mkVoiceInterface
                    (voice_page v) (isListening v) (recognitionTimeout v)
                    (clearTimeout (Some id) (recognitionTimers v))
                    (nextTimerId v))
          else v
      | None => v
      end
  | PageEvent ev =>
      mkVoiceInterface (step ev (voice_page v)) (isListening v)
                       (recognitionTimeout v) (recognitionTimers v)
                       (nextTimerId v)
  end.

Definition voice_run (evs : list VoiceEvent) (v : VoiceInterface)
  : VoiceInterface :=
  fold_left (fun w ev => voice_step ev w) evs v.

(** The voice interface once [initVoiceInterface] has run on a page. *)
Definition voice_interface (p : Page) : VoiceInterface :=
  mkVoiceInterface p false None [] 0.

(** A recognition timer is pending exactly while the interface listens, it
    is the one whose id the variable holds, and ids are fresh. *)
Definition listening_ok (v : VoiceInterface) : Prop :=
  (isListening v = false -> recognitionTimers v = [])
  /\ (isListening v = true ->
      exists id due, recognitionTimeout v = Some id
                     /\ recognitionTimers v = [(id, due)])
  /\ (forall t, In t (recognitionTimers v) -> (fst t < nextTimerId v)%nat).

(** ** main.js: the simulated battery *)

(** The level [updateBatteryStatus] shows for the value [random] that
    [Math.random()] returned, and the colour it gives the indicator. *)
Definition batteryLevel (random : R) : Z := Math_floor (random * 80) + 20.

Definition batteryColor (level : Z) : string :=
  if level <? 30 then "#f44336" else "var(--sheikah-blue)".

(** ** The command of a joystick move, over IEEE doubles *)

(** The arithmetic of [handleMove] and [updateMovement] with every number a
    binary64 double and every operation the IEEE one JavaScript performs, in
    the order of the source.  [Math.atan2] is approximated by each engine in
    its own way: its result enters as the double the call returned. *)
Module Double.

Definition Math_PI : float := 0x1.921fb54442d18p+1%float.

Definition maxDistance : float := 50%float.

(** [Math.min]: NaN if an argument is, and -0 before +0. *)
Definition Math_min (a b : float) : float :=
  if PrimFloat.is_nan a || PrimFloat.is_nan b then PrimFloat.nan
  else if (a <? b)%float then a
  else if (b <? a)%float then b
  else if PrimFloat.is_zero a && PrimFloat.get_sign a then a else b.

(** [Math.round] as the integer that [JSON.stringify] writes: the integer
    nearest to the exact value of the double, halves going up; there is none
    for NaN and the infinities, written [null]. *)
Definition Math_round (x : float) : option Z :=
  match Prim2SF x with
  | S754_zero _ => Some 0
  | S754_finite s m e =>
      let n := if s then Z.neg m else Z.pos m in
      Some (if 0 <=? e then n * 2 ^ e
            else (n + 2 ^ (- e - 1)) / 2 ^ (- e))
  | S754_infinity _ | S754_nan => None
  end.

(** The double of an integer, as [parseInt] returns it for the value of the
    slider: the nearest double, ties to even. *)
Definition Number (z : Z) : float :=
  SF2Prim (binary_normalize prec emax z 0 false).

Record Movement : Type := mkMovement {
  angle : float;
  distance : float;
  speed : Z }.

Definition directionOf (angleDeg : float) : Direction :=
  if ((-45 <? angleDeg) && (angleDeg <=? 45))%float then Right
  else if ((45 <? angleDeg) && (angleDeg <=? 135))%float then Backward
  else if ((135 <? angleDeg) || (angleDeg <=? -135))%float then Left
  else Forward.

(** [handleMove] past its [isDragging] guard, for a pointer at
    [(clientX, clientY)]: the vector it stores; [atan2] is the double that
    [Math.atan2(deltaY, deltaX)] returned. *)
Definition handleMove (startX startY clientX clientY atan2 : float)
  (m : Movement) : Movement :=
  let deltaX := (clientX - startX)%float in
  let deltaY := (clientY - startY)%float in
  let dist :=
    Math_min (PrimFloat.sqrt (deltaX * deltaX + deltaY * deltaY))%float
             maxDistance in
  mkMovement atan2 (dist / maxDistance)%float (speed m).

(** [updateMovement]: the direction and the speed it hands to
    [sendMovementCommand]. *)
Definition updateMovement (m : Movement) : Direction * option Z :=
  let angleDeg := (angle m * (180 / Math_PI))%float in
  let direction := directionOf angleDeg in
  let scaledSpeed := Math_round (Number (speed m) * distance m)%float in
  (direction, scaledSpeed).

(** The exact value of a finite double: the rational [n * 2 ^ e] of its
    sign, mantissa and exponent, in lowest terms. *)
Definition exact (x : float) : option Q :=
  match Prim2SF x with
  | S754_zero _ => Some (inject_Z 0)
  | S754_finite s m e =>
      let n := if s then Z.neg m else Z.pos m in
      Some (Qred (if 0 <=? e then inject_Z (n * 2 ^ e)
                  else Qmake n (Z.to_pos (2 ^ (- e)))))
  | S754_infinity _ | S754_nan => None
  end.

End Double.

(** * Properties *)

Local Open Scope R_scope.

(** ** Numbers *)

Lemma Rltb_true_iff (x y : R) : Rltb x y = true <-> x < y.
Proof.
  unfold Rltb; destruct (Rlt_dec x y); split; intros; auto; discriminate.
Qed.

Lemma Rltb_false_iff (x y : R) : Rltb x y = false <-> ~ x < y.
Proof.
  unfold Rltb; destruct (Rlt_dec x y); split; intros; auto;
    try discriminate; contradiction.
Qed.

Lemma Rleb_true_iff (x y : R) : Rleb x y = true <-> x <= y.
Proof.
  unfold Rleb; destruct (Rle_dec x y); split; intros; auto; discriminate.
Qed.

Lemma Rleb_false_iff (x y : R) : Rleb x y = false <-> ~ x <= y.
Proof.
  unfold Rleb; destruct (Rle_dec x y); split; intros; auto;
    try discriminate; contradiction.
Qed.

Ltac Rcompare :=
  repeat match goal with
  | |- context [Rltb ?x ?y] =>
      let H := fresh "H" in
      destruct (Rltb x y) eqn:H;
      [apply Rltb_true_iff in H | apply Rltb_false_iff in H]
  | |- context [Rleb ?x ?y] =>
      let H := fresh "H" in
      destruct (Rleb x y) eqn:H;
      [apply Rleb_true_iff in H | apply Rleb_false_iff in H]
  end.

Lemma directionOf_Right a : -45 < a <= 45 -> directionOf a = Right.
Proof.
  intros [H1 H2]; unfold directionOf; Rcompare; simpl; try reflexivity; lra.
Qed.

Lemma directionOf_Backward a : 45 < a <= 135 -> directionOf a = Backward.
Proof.
  intros [H1 H2]; unfold directionOf; Rcompare; simpl; try reflexivity; lra.
Qed.

Lemma directionOf_Left a : 135 < a \/ a <= -135 -> directionOf a = Left.
Proof.
  intros H; unfold directionOf; Rcompare; simpl; try reflexivity; lra.
Qed.

Lemma directionOf_Forward a : -135 < a <= -45 -> directionOf a = Forward.
Proof.
  intros [H1 H2]; unfold directionOf; Rcompare; simpl; try reflexivity; lra.
Qed.

Lemma Math_floor_unique (z : Z) (x : R) :
  IZR z <= x < IZR z + 1 -> Math_floor x = z.
Proof.
  intros [H1 H2]. unfold Math_floor.
  assert (E : (z + 1)%Z = up x).
  { apply tech_up; rewrite plus_IZR; lra. }
  lia.
Qed.

Lemma Math_round_IZR (z : Z) : Math_round (IZR z) = z.
Proof. unfold Math_round. apply Math_floor_unique. lra. Qed.

Lemma Math_atan2_origin : Math_atan2 0 0 = 0.
Proof. unfold Math_atan2. Rcompare; try reflexivity; lra. Qed.

Lemma Math_atan2_positive_x (x : R) : 0 < x -> Math_atan2 0 x = 0.
Proof.
  intros H. unfold Math_atan2. Rcompare; try lra.
  replace (0 / x) with 0 by (field; lra). apply atan_0.
Qed.

Lemma Math_atan2_diagonal (x : R) : 0 < x -> Math_atan2 x x = PI / 4.
Proof.
  intros H. unfold Math_atan2. Rcompare; try lra.
  replace (x / x) with 1 by (field; lra). apply atan_1.
Qed.

Lemma Math_atan2_range (y x : R) : - PI < Math_atan2 y x <= PI.
Proof.
  pose proof PI_RGT_0 as HPI.
  unfold Math_atan2. Rcompare; try lra.
  - pose proof (atan_bound (y / x)). lra.
  - pose proof (atan_bound (y / x)).
    assert (atan (y / x) <= 0).
    { rewrite <- atan_0. destruct (Req_dec (y / x) 0) as [E | E].
      - rewrite E. lra.
      - left. apply atan_increasing.
        assert (y / x <= 0); [| lra].
        unfold Rdiv. replace (y * / x) with (- (y * / (- x))).
        2:{ field. lra. }
        assert (0 <= y * / - x); [| lra].
        apply Rmult_le_pos; [lra |]. left. apply Rinv_0_lt_compat. lra. }
    lra.
  - pose proof (atan_bound (y / x)).
    assert (0 < atan (y / x)).
    { rewrite <- atan_0. apply atan_increasing.
      unfold Rdiv. replace (y * / x) with ((- y) * / (- x)).
      2:{ field. lra. }
      apply Rmult_lt_0_compat; [lra |]. apply Rinv_0_lt_compat. lra. }
    lra.
Qed.

Lemma hypot_positive (x y : R) : (x, y) <> (0, 0) -> 0 < sqrt (x * x + y * y).
Proof.
  intros H. apply sqrt_lt_R0.
  destruct (Req_dec x 0) as [Ex | Ex]; destruct (Req_dec y 0) as [Ey | Ey];
    subst; try nra.
  exfalso. apply H. reflexivity.
Qed.

Lemma sqrt_one_plus_ratio (x y : R) :
  x <> 0 -> sqrt (1 + (y / x)²) = sqrt (x * x + y * y) / Rabs x.
Proof.
  intros Hx.
  assert (Ha : 0 < Rabs x) by (apply Rabs_pos_lt; exact Hx).
  apply sqrt_lem_1.
  - unfold Rsqr. nra.
  - apply Rmult_le_pos; [apply sqrt_pos | left; apply Rinv_0_lt_compat; exact Ha].
  - unfold Rdiv.
    replace (sqrt (x * x + y * y) * / Rabs x * (sqrt (x * x + y * y) * / Rabs x))
      with ((sqrt (x * x + y * y) * sqrt (x * x + y * y)) * / (Rabs x * Rabs x)).
    2:{ field. lra. }
    rewrite sqrt_sqrt by nra.
    replace (Rabs x * Rabs x) with (x * x).
    2:{ unfold Rabs. destruct (Rcase_abs x); ring. }
    unfold Rsqr. field. exact Hx.
Qed.

(** [Math_atan2 y x] is the polar angle of the point [(x, y)]. *)
Lemma Math_atan2_polar (x y : R) :
  (x, y) <> (0, 0) ->
  let r := sqrt (x * x + y * y) in
  r * cos (Math_atan2 y x) = x /\ r * sin (Math_atan2 y x) = y.
Proof.
  intros H r.
  assert (Hr : 0 < r) by (apply hypot_positive; exact H).
  unfold Math_atan2. Rcompare.
  - rewrite cos_atan, sin_atan, sqrt_one_plus_ratio by lra.
    fold r. rewrite Rabs_right by lra. split; field; lra.
  - rewrite cos_plus, sin_plus, cos_PI, sin_PI.
    rewrite cos_atan, sin_atan, sqrt_one_plus_ratio by lra.
    fold r. rewrite Rabs_left by lra. split; field; lra.
  - rewrite cos_minus, sin_minus, cos_PI, sin_PI.
    rewrite cos_atan, sin_atan, sqrt_one_plus_ratio by lra.
    fold r. rewrite Rabs_left by lra. split; field; lra.
  - assert (x = 0) by lra. subst x.
    rewrite cos_PI2, sin_PI2. split; [ring |].
    unfold r. replace (0 * 0 + y * y) with (y * y) by ring.
    rewrite sqrt_square by lra. ring.
  - assert (x = 0) by lra. subst x.
    rewrite cos_neg, sin_neg, cos_PI2, sin_PI2. split; [ring |].
    unfold r. replace (0 * 0 + y * y) with ((- y) * (- y)) by ring.
    rewrite sqrt_square by lra. ring.
  - exfalso. apply H. f_equal; lra.
Qed.

(** ** What the handlers compute *)

Lemma sendMovementCommand_run (d : Direction) (s : Z) (p : Page) :
  sendMovementCommand d s p
  = (Normal tt, with_requests (fun l => l ++ [movement_request d s])%list p).
Proof. reflexivity. Qed.

Lemma updateButtonState_run (d : Direction) (p : Page) :
  updateButtonState d p
  = if buttons_present p
    then (Normal tt, with_dom (set_activeButton d) p)
    else (Throw "TypeError: Cannot read properties of null", p).
Proof.
  unfold updateButtonState, buttons_present, has_element, forEach, element,
    getElementById, bind, gets, modify, ret, throw.
  simpl.
  repeat match goal with
  | |- context [existsb ?f ?l] => destruct (existsb f l); simpl; try reflexivity
  end.
Qed.

Lemma updateMovement_run (p : Page) :
  updateMovement p
  = (Normal tt,
     with_requests (fun l => l ++
       [movement_request
          (directionOf (angle (currentMovement (joy p)) * (180 / PI)))
          (Math_round (IZR (speed (currentMovement (joy p)))
                       * distance (currentMovement (joy p))))])%list p).
Proof. reflexivity. Qed.

Lemma handleMove_dragging (e : PointerEvent) (cx cy : R) (p : Page) :
  isDragging (joy p) = true ->
  pointer e = Some (cx, cy) ->
  handleMove e p
  = updateMovement
      (with_joy (moved (cx - startX (joy p)) (cy - startY (joy p))) p).
Proof.
  intros Hd He.
  unfold handleMove, bind, gets, client. rewrite Hd, He. reflexivity.
Qed.

Lemma handleMove_idle (e : PointerEvent) (p : Page) :
  isDragging (joy p) = false -> handleMove e p = (Normal tt, p).
Proof.
  intros Hd. unfold handleMove, bind, gets. rewrite Hd. reflexivity.
Qed.

Lemma handleEnd_idle (p : Page) :
  isDragging (joy p) = false -> handleEnd p = (Normal tt, p).
Proof.
  intros Hd. unfold handleEnd, bind, gets. rewrite Hd. reflexivity.
Qed.

Lemma step_PointerMove_dragging (e : PointerEvent) (cx cy : R) (p : Page) :
  isDragging (joy p) = true ->
  pointer e = Some (cx, cy) ->
  step (PointerMove e) p
  = exec updateMovement
      (with_joy (moved (cx - startX (joy p)) (cy - startY (joy p))) p).
Proof.
  intros Hd He. unfold step, dispatch, exec, listener, try_catch.
  rewrite (handleMove_dragging e cx cy p Hd He). reflexivity.
Qed.

Lemma hypot_zero (x y : R) : sqrt (x * x + y * y) = 0 -> x = 0 /\ y = 0.
Proof.
  intros H. apply sqrt_eq_0 in H; [| nra]. split; nra.
Qed.

Lemma step_PointerMove_keeps_dragging (e : PointerEvent) (p : Page) :
  isDragging (joy (step (PointerMove e) p)) = isDragging (joy p)
  /\ speed (currentMovement (joy (step (PointerMove e) p)))
     = speed (currentMovement (joy p)).
Proof.
  destruct (isDragging (joy p)) eqn:Hd.
  - destruct (pointer e) as [[cx cy] |] eqn:He.
    + rewrite (step_PointerMove_dragging e cx cy p Hd He).
      simpl. auto.
    + unfold step, dispatch, exec, listener, try_catch, handleMove, bind,
        gets, client. rewrite Hd, He. simpl. auto.
  - unfold step, dispatch, exec, listener, try_catch.
    rewrite (handleMove_idle e p Hd). simpl. auto.
Qed.

Lemma step_PointerDown_starts_dragging (e : PointerEvent) (p : Page) :
  isDragging (joy (step (PointerDown e) p)) = true
  /\ speed (currentMovement (joy (step (PointerDown e) p)))
     = speed (currentMovement (joy p)).
Proof.
  unfold step, dispatch, exec, listener, try_catch, handleStart, handleMove,
    bind, gets, modify, client.
  simpl. destruct (pointer e) as [[cx cy] |]; simpl; auto.
Qed.

Lemma drag_is_dragging (moves : list PointerEvent) (p : Page) :
  isDragging (joy p) = true ->
  isDragging (joy (run (map PointerMove moves) p)) = true
  /\ speed (currentMovement (joy (run (map PointerMove moves) p)))
     = speed (currentMovement (joy p)).
Proof.
  revert p. induction moves as [| e moves IH]; intros p Hd.
  - simpl. auto.
  - destruct (step_PointerMove_keeps_dragging e p) as [H1 H2].
    destruct (IH (step (PointerMove e) p)) as [H3 H4].
    + rewrite H1. exact Hd.
    + change (run (map PointerMove (e :: moves)) p)
        with (run (map PointerMove moves) (step (PointerMove e) p)).
      rewrite H3, H4, H2. auto.
Qed.

Lemma handleEnd_dragging (p : Page) :
  isDragging (joy p) = true ->
  handleEnd p
  = let p1 :=
      with_requests (fun l => l ++ [movement_request Stop 0])%list
        (with_joy (fun j =>
           mkJoystick (mkMovement 0 0 (speed (currentMovement j))) false
                      (startX j) (startY j) 0 0) p) in
    if buttons_present p
    then setTimeout ClearTransition 200 (with_dom (set_activeButton Stop) p1)
    else (Throw "TypeError: Cannot read properties of null", p1).
Proof.
  intros Hd. unfold handleEnd, bind, gets. rewrite Hd. cbn [negb].
  unfold modify at 1 2 3. rewrite sendMovementCommand_run.
  rewrite updateButtonState_run.
  match goal with |- context [buttons_present ?x] =>
    change (buttons_present x) with (buttons_present p) end.
  destruct (buttons_present p); reflexivity.
Qed.

Lemma step_PointerUp_dragging (p : Page) :
  isDragging (joy p) = true ->
  let q := step PointerUp p in
  joy q = mkJoystick (mkMovement 0 0 (speed (currentMovement (joy p)))) false
                     (startX (joy p)) (startY (joy p)) 0 0
  /\ requests q = (requests p ++ [movement_request Stop 0])%list
  /\ activeButton (dom q)
     = (if buttons_present p then Some Stop else activeButton (dom p))
  /\ window_currentMovement q = window_currentMovement p.
Proof.
  intros Hd q. subst q.
  unfold step, dispatch, exec, listener, try_catch.
  rewrite (handleEnd_dragging p Hd).
  destruct (buttons_present p); simpl; auto.
Qed.

(** C10.  While no drag is active, a pointer move and a pointer release
    anywhere on the document leave the whole page as it was: the joystick
    state is unchanged and no command is sent. *)
Theorem C10_idle_pointer_events_change_nothing (p : Page) (e : PointerEvent) :
  isDragging (joy p) = false ->
  step (PointerMove e) p = p /\ step PointerUp p = p.
Proof.
  intros Hd. unfold step, dispatch, exec, listener, try_catch.
  rewrite (handleMove_idle e p Hd), (handleEnd_idle p Hd). auto.
Qed.

Lemma C10_witness :
  isDragging (joy index_html) = false
  /\ step (PointerMove (MouseEvent 300 200)) index_html = index_html
  /\ step PointerUp index_html = index_html.
Proof.
  split; [reflexivity |].
  apply (C10_idle_pointer_events_change_nothing index_html (MouseEvent 300 200)).
  reflexivity.
Defined.

Lemma step_pointer_keeps_window (ev : Event) (p : Page) :
  (exists e, ev = PointerDown e \/ ev = PointerMove e) ->
  window_currentMovement (step ev p) = window_currentMovement p.
Proof.
  intros [e [-> | ->]];
    unfold step, dispatch, exec, listener, try_catch, handleStart, handleMove,
      bind, gets, modify, client; simpl.
  - destruct (pointer e) as [[cx cy] |]; reflexivity.
  - destruct (isDragging (joy p)); [| reflexivity].
    destruct (pointer e) as [[cx cy] |]; reflexivity.
Qed.

Lemma drag_keeps_window
  (e0 : PointerEvent) (moves : list PointerEvent) (p : Page) :
  window_currentMovement (run (PointerDown e0 :: map PointerMove moves) p)
  = window_currentMovement p.
Proof.
  change (run (PointerDown e0 :: map PointerMove moves) p)
    with (run (map PointerMove moves) (step (PointerDown e0) p)).
  rewrite <- (step_pointer_keeps_window (PointerDown e0) p)
    by (exists e0; left; reflexivity).
  generalize (step (PointerDown e0) p). clear p.
  induction moves as [| e moves IH]; intros p.
  - reflexivity.
  - change (run (map PointerMove (e :: moves)) p)
      with (run (map PointerMove moves) (step (PointerMove e) p)).
    rewrite IH. apply step_pointer_keeps_window.
    exists e. right. reflexivity.
Qed.

(** C6 (as the code has it).  Releasing the joystick after a drag of any
    number of moves resets the joystick vector to angle 0 and distance 0,
    keeps the cruise speed, ends the drag and issues exactly one command, a
    stop at speed 0.  It stores no direction: the movement object that
    [setMovement] writes, the only place where a direction is kept, is what
    it was before the drag; and the stop button is marked only when the five
    direction buttons exist. *)
Theorem C6_release_resets_and_stops_once
  (p : Page) (e0 : PointerEvent) (moves : list PointerEvent) :
  let p1 := run (PointerDown e0 :: map PointerMove moves) p in
  let p2 := step PointerUp p1 in
  currentMovement (joy p2) = mkMovement 0 0 (speed (currentMovement (joy p1)))
  /\ speed (currentMovement (joy p1)) = speed (currentMovement (joy p))
  /\ isDragging (joy p2) = false
  /\ requests p2 = (requests p1 ++ [movement_request Stop 0])%list
  /\ activeButton (dom p2)
     = (if buttons_present p1 then Some Stop else activeButton (dom p1))
  /\ window_currentMovement p2 = window_currentMovement p.
Proof.
  intros p1 p2.
  destruct (step_PointerDown_starts_dragging e0 p) as [Hd0 Hs0].
  destruct (drag_is_dragging moves (step (PointerDown e0) p) Hd0) as [Hd1 Hs1].
  change (run (map PointerMove moves) (step (PointerDown e0) p)) with p1 in *.
  destruct (step_PointerUp_dragging p1 Hd1) as (Hj & Hr & Ha & Hw).
  fold p2 in Hj, Hr, Ha, Hw.
  rewrite Hj. simpl. repeat split; auto.
  - congruence.
  - rewrite Hw. apply drag_keeps_window.
Qed.

(** C6, refuted as stated: on the page of the sources, after ArrowUp is
    pressed and the joystick is then pressed and released, the last command
    is the stop at speed 0 and the joystick vector is null, yet the stored
    direction still reads forward and no button is marked; with the five
    buttons in the markup the stop button is marked and the stored direction
    reads forward all the same. *)
Lemma C6_counterexample :
  let gesture :=
    [KeyDown (on_body "ArrowUp"); PointerDown (MouseEvent 50 50); PointerUp] in
  let q := run gesture index_html in
  let q' := run gesture (with_buttons false index_html) in
  last (requests q) (movement_request Forward 50) = movement_request Stop 0
  /\ option_map obj_direction (window_currentMovement q) = Some Forward
  /\ option_map obj_direction (window_currentMovement q) <> Some Stop
  /\ activeButton (dom q) = None
  /\ option_map obj_direction (window_currentMovement q') = Some Forward
  /\ activeButton (dom q') = Some Stop.
Proof.
  vm_compute. repeat split; discriminate.
Qed.

Lemma step_PointerMove_sends (e : PointerEvent) (cx cy : R) (p : Page) :
  isDragging (joy p) = true ->
  pointer e = Some (cx, cy) ->
  let dx := cx - startX (joy p) in
  let dy := cy - startY (joy p) in
  let magnitude := Rmin (sqrt (dx * dx + dy * dy)) maxDistance / maxDistance in
  step (PointerMove e) p
  = with_requests (fun l => l ++
      [movement_request
         (directionOf (Math_atan2 dy dx * (180 / PI)))
         (Math_round (IZR (speed (currentMovement (joy p))) * magnitude))])%list
      (with_joy (moved dx dy) p).
Proof.
  intros Hd He dx dy magnitude.
  rewrite (step_PointerMove_dragging e cx cy p Hd He).
  unfold exec. rewrite updateMovement_run. reflexivity.
Qed.

Lemma step_PointerDown_run (e : PointerEvent) (p : Page) :
  step (PointerDown e) p
  = step (PointerMove e)
      (with_joy (set_start
                   (rect_left (joystickRect (dom p))
                    + rect_width (joystickRect (dom p)) / 2)
                   (rect_top (joystickRect (dom p))
                    + rect_height (joystickRect (dom p)) / 2))
         (with_joy (set_isDragging true) p)).
Proof. reflexivity. Qed.

Lemma step_SliderInput_idle (v : Z) (p : Page) :
  distance (currentMovement (joy p)) <= 0 ->
  step (SliderInput v) p
  = with_joy (fun j =>
      set_currentMovement
        (mkMovement (angle (currentMovement j)) (distance (currentMovement j)) v)
        j)
      (with_dom (set_speedSlider v) p).
Proof.
  intros H.
  unfold step, dispatch, exec, listener, try_catch, speedSlider_input, bind,
    gets, modify.
  cbn -[Rltb].
  replace (Rltb 0 (distance (currentMovement (joy p)))) with false.
  - reflexivity.
  - symmetry. apply Rltb_false_iff. lra.
Qed.

Lemma degrees_quarter_turn : PI / 4 * (180 / PI) = 45.
Proof. pose proof PI_RGT_0. field. lra. Qed.

Lemma directionOf_center : directionOf (Math_atan2 0 0 * (180 / PI)) = Right.
Proof.
  rewrite Math_atan2_origin, Rmult_0_l. apply directionOf_Right. lra.
Qed.

(** A move whose offset from the origin of the drag is null. *)
Lemma move_at_center (e : PointerEvent) (cx cy : R) (p : Page) :
  isDragging (joy p) = true ->
  pointer e = Some (cx, cy) ->
  cx - startX (joy p) = 0 ->
  cy - startY (joy p) = 0 ->
  let q := step (PointerMove e) p in
  requests q = (requests p ++ [movement_request Right 0])%list
  /\ distance (currentMovement (joy q)) = 0
  /\ angle (currentMovement (joy q)) = 0.
Proof.
  intros Hd He Hx Hy q. subst q.
  rewrite (step_PointerMove_sends e cx cy p Hd He). rewrite Hx, Hy.
  assert (Hm : Rmin (sqrt (0 * 0 + 0 * 0)) maxDistance / maxDistance = 0).
  { replace (0 * 0 + 0 * 0) with 0 by ring. rewrite sqrt_0.
    unfold maxDistance. rewrite Rmin_left by lra. lra. }
  cbn [requests with_requests joy with_joy moved currentMovement distance angle].
  rewrite Hm, directionOf_center, Rmult_0_r.
  change 0 with (IZR 0) at 1. rewrite Math_round_IZR.
  repeat split. apply Math_atan2_origin.
Qed.

(** C1 (as the code has it).  A joystick move whose offset from the origin
    of the drag has distance 0 stores magnitude 0 and angle 0 and sends one
    command, with speed 0 and with the direction of the bucket of angle 0,
    which is right. *)
Theorem C1_center_move_sends_right_at_speed_zero
  (p : Page) (e : PointerEvent) (cx cy : R) :
  isDragging (joy p) = true ->
  pointer e = Some (cx, cy) ->
  sqrt ((cx - startX (joy p)) * (cx - startX (joy p))
        + (cy - startY (joy p)) * (cy - startY (joy p))) = 0 ->
  let q := step (PointerMove e) p in
  requests q = (requests p ++ [movement_request Right 0])%list
  /\ distance (currentMovement (joy q)) = 0
  /\ angle (currentMovement (joy q)) = 0.
Proof.
  intros Hd He H0. destruct (hypot_zero _ _ H0) as [Hx Hy].
  exact (move_at_center e cx cy p Hd He Hx Hy).
Qed.

(** The page after the joystick has been pressed exactly at its centre. *)
Lemma pressed_at_center :
  let p := step (PointerDown (MouseEvent 50 50)) index_html in
  isDragging (joy p) = true /\ startX (joy p) = 50 /\ startY (joy p) = 50
  /\ requests p = [movement_request Right 0].
Proof.
  intros p. subst p. rewrite step_PointerDown_run.
  match goal with |- context [step (PointerMove ?e) ?q] =>
    destruct (move_at_center e 50 50 q) as (Hr & _ & _);
      [reflexivity | reflexivity | simpl; lra | simpl; lra |];
    pose proof (step_PointerMove_keeps_dragging e q) as [Hk _];
    rewrite (step_PointerMove_sends e 50 50 q eq_refl eq_refl) in *
  end.
  repeat split; try exact Hr; simpl; lra.
Qed.

Lemma C1_witness :
  let p := step (PointerDown (MouseEvent 50 50)) index_html in
  let q := step (PointerMove (MouseEvent 50 50)) p in
  requests q = (requests p ++ [movement_request Right 0])%list
  /\ distance (currentMovement (joy q)) = 0
  /\ angle (currentMovement (joy q)) = 0.
Proof.
  intros p.
  destruct pressed_at_center as (Hd & Hx & Hy & _). fold p in Hd, Hx, Hy.
  apply (C1_center_move_sends_right_at_speed_zero p (MouseEvent 50 50) 50 50).
  - exact Hd.
  - reflexivity.
  - rewrite Hx, Hy. replace ((50 - 50) * (50 - 50) + (50 - 50) * (50 - 50))
      with 0 by ring. apply sqrt_0.
Defined.

(** C1, refuted as stated: pressing the joystick exactly at its centre and
    moving there again sends two commands, both with direction right and
    speed 0; no stop is sent. *)
Lemma C1_counterexample :
  requests (run [PointerDown (MouseEvent 50 50); PointerMove (MouseEvent 50 50)]
                index_html)
  = [movement_request Right 0; movement_request Right 0]
  /\ movement_request Right 0 <> movement_request Stop 0.
Proof.
  split; [| discriminate].
  destruct pressed_at_center as (Hd & Hx & Hy & Hr).
  change (run [PointerDown (MouseEvent 50 50); PointerMove (MouseEvent 50 50)]
              index_html)
    with (step (PointerMove (MouseEvent 50 50))
               (step (PointerDown (MouseEvent 50 50)) index_html)).
  set (p := step (PointerDown (MouseEvent 50 50)) index_html) in *.
  destruct (move_at_center (MouseEvent 50 50) 50 50 p Hd eq_refl) as (H & _ & _).
  - rewrite Hx. lra.
  - rewrite Hy. lra.
  - cbv zeta in Hd, Hx, Hy, Hr. rewrite H, Hr. reflexivity.
Qed.

(** C4 (as the code has it).  Each bucket is open below and closed above:
    every angle in (-45, 45] maps to right, each of the four boundary angles
    -135, -45, 45 and 135 belongs to the bucket it closes (left, forward,
    right, backward), and any angle just above a boundary belongs to the next
    bucket.  A drag along the diagonal, at exactly 45 degrees, sends right. *)
Theorem C4_boundary_angles_close_the_bucket_below :
  (forall a : R, -45 < a <= 45 -> directionOf a = Right)
  /\ (directionOf (-135) = Left /\ directionOf (-45) = Forward
      /\ directionOf 45 = Right /\ directionOf 135 = Backward)
  /\ (forall h : R, 0 < h <= 90 ->
        directionOf (-135 + h) = Forward /\ directionOf (-45 + h) = Right
        /\ directionOf (45 + h) = Backward)
  /\ (forall h : R, 0 < h -> directionOf (135 + h) = Left)
  /\ (forall (p : Page) (e : PointerEvent) (cx cy d : R),
        isDragging (joy p) = true ->
        pointer e = Some (cx, cy) ->
        0 < d -> cx - startX (joy p) = d -> cy - startY (joy p) = d ->
        exists s : Z,
          requests (step (PointerMove e) p)
          = (requests p ++ [movement_request Right s])%list).
Proof.
  split; [exact directionOf_Right |].
  split.
  { repeat split.
    - apply directionOf_Left. lra.
    - apply directionOf_Forward. lra.
    - apply directionOf_Right. lra.
    - apply directionOf_Backward. lra. }
  split.
  { intros h Hh. repeat split.
    - apply directionOf_Forward. lra.
    - apply directionOf_Right. lra.
    - apply directionOf_Backward. lra. }
  split.
  { intros h Hh. apply directionOf_Left. lra. }
  intros p e cx cy d Hd He Hpos Hx Hy.
  rewrite (step_PointerMove_sends e cx cy p Hd He). rewrite Hx, Hy.
  rewrite (Math_atan2_diagonal d Hpos), degrees_quarter_turn.
  rewrite (directionOf_Right 45) by lra.
  eexists. reflexivity.
Qed.

Lemma C4_witness :
  -45 < 45 <= 45 /\ directionOf 45 = Right.
Proof.
  assert (H : -45 < 45 <= 45) by lra.
  split; [exact H |].
  exact (proj1 C4_boundary_angles_close_the_bucket_below 45 H).
Defined.

(** C4, refuted as stated: the boundary angle of exactly 45 degrees takes the
    first branch of the cascade and is classified right, not backward. *)
Lemma C4_counterexample :
  directionOf 45 = Right /\ directionOf 45 <> Backward.
Proof.
  assert (H : directionOf 45 = Right) by (apply directionOf_Right; lra).
  split; [exact H |]. rewrite H. discriminate.
Qed.

(** *** The command of a move over IEEE doubles *)







(** ** Keyboard *)

Lemma element_present (id : string) (p : Page) :
  has_element id p = true -> element id p = (Normal tt, p).
Proof.
  intros H. unfold element, getElementById, bind, gets.
  unfold has_element in H. rewrite H. reflexivity.
Qed.

Lemma setMovement_run (d : Direction) (p : Page) :
  has_element "speed-slider" p = true ->
  setMovement d p
  = updateButtonState d
      (with_requests
         (fun l => l ++ [movement_request d (speedSlider (dom p))])%list
         (with_window_currentMovement
            (movement_object d (speedSlider (dom p))) p)).
Proof.
  intros H. unfold setMovement. unfold bind at 1.
  rewrite (element_present _ _ H). destruct d; reflexivity.
Qed.

Lemma listener_setMovement (d : Direction) (p : Page) :
  has_element "speed-slider" p = true ->
  listener (setMovement d) p = (Normal tt, after_setMovement d p).
Proof.
  intros H. unfold listener, try_catch, after_setMovement.
  rewrite (setMovement_run d p H), updateButtonState_run.
  match goal with |- context [buttons_present ?x] =>
    change (buttons_present x) with (buttons_present p) end.
  destruct (buttons_present p); reflexivity.
Qed.

Lemma handleKeyDown_run (e : KeyboardEvent) :
  in_form_control e = false ->
  handleKeyDown e
  = match key_direction (key e) with
    | Some d => setMovement d
    | None => ret tt
    end.
Proof.
  intros H. unfold handleKeyDown, key_direction. rewrite H.
  repeat match goal with
  | |- context [String.eqb ?a ?b] => destruct (String.eqb a b); try reflexivity
  end.
Qed.

Lemma handleKeyUp_arrow (e : KeyboardEvent) :
  in_form_control e = false ->
  In (key e) arrow_keys ->
  handleKeyUp e = setMovement Stop.
Proof.
  intros H Hk. unfold handleKeyUp. rewrite H.
  replace (existsb (String.eqb (key e))
             ["ArrowUp"; "ArrowDown"; "ArrowLeft"; "ArrowRight"]) with true.
  - reflexivity.
  - symmetry. apply existsb_exists. exists (key e). split; [exact Hk |].
    apply String.eqb_refl.
Qed.

Lemma step_KeyDown (e : KeyboardEvent) (d : Direction) (p : Page) :
  has_element "speed-slider" p = true ->
  in_form_control e = false ->
  key_direction (key e) = Some d ->
  step (KeyDown e) p = after_setMovement d p.
Proof.
  intros Hs Hf Hk. unfold step, dispatch, exec.
  rewrite (handleKeyDown_run e Hf), Hk, (listener_setMovement d p Hs).
  reflexivity.
Qed.

Lemma step_KeyUp (e : KeyboardEvent) (p : Page) :
  has_element "speed-slider" p = true ->
  in_form_control e = false ->
  In (key e) arrow_keys ->
  step (KeyUp e) p = after_setMovement Stop p.
Proof.
  intros Hs Hf Hk. unfold step, dispatch, exec.
  rewrite (handleKeyUp_arrow e Hf Hk), (listener_setMovement Stop p Hs).
  reflexivity.
Qed.

Lemma after_setMovement_fields (d : Direction) (p : Page) :
  let q := after_setMovement d p in
  window_currentMovement q = Some (movement_object d (speedSlider (dom p)))
  /\ requests q
     = (requests p ++ [movement_request d (speedSlider (dom p))])%list
  /\ dom q = (if buttons_present p then set_activeButton d (dom p) else dom p)
  /\ joy q = joy p
  /\ timers q = timers p
  /\ clicks q = clicks p.
Proof.
  unfold after_setMovement. destruct (buttons_present p); simpl; auto 10.
Qed.

Lemma after_setMovement_document (d : Direction) (p : Page) :
  let q := after_setMovement d p in
  ids (dom q) = ids (dom p) /\ speedSlider (dom q) = speedSlider (dom p)
  /\ buttons_present q = buttons_present p
  /\ (forall id, has_element id q = has_element id p).
Proof.
  unfold after_setMovement.
  destruct (buttons_present p) eqn:E; cbv zeta; repeat split;
    try reflexivity; exact E.
Qed.

(** C2 (as the code has it).  With the focus outside form controls, after a
    first arrow key is pressed, a second arrow key is pressed and the first
    is released, the stored direction is stop: the three events send the
    first direction, the second direction and then stop, each at the slider
    speed, because the release of any arrow key stops the vehicle. *)
Theorem C2_stale_key_release_stops
  (p : Page) (e1 e2 : KeyboardEvent) (d1 d2 : Direction) :
  has_element "speed-slider" p = true ->
  in_form_control e1 = false -> in_form_control e2 = false ->
  In (key e1) arrow_keys -> In (key e2) arrow_keys ->
  key_direction (key e1) = Some d1 -> key_direction (key e2) = Some d2 ->
  let s := speedSlider (dom p) in
  let q := run [KeyDown e1; KeyDown e2; KeyUp e1] p in
  option_map obj_direction (window_currentMovement q) = Some Stop
  /\ requests q
     = (requests p ++ [movement_request d1 s; movement_request d2 s;
                       movement_request Stop s])%list
  /\ (buttons_present p = true -> activeButton (dom q) = Some Stop).
Proof.
  intros Hs Hf1 Hf2 Hk1 Hk2 Hd1 Hd2 s q. subst q.
  change (run [KeyDown e1; KeyDown e2; KeyUp e1] p)
    with (step (KeyUp e1) (step (KeyDown e2) (step (KeyDown e1) p))).
  rewrite (step_KeyDown e1 d1 p Hs Hf1 Hd1).
  destruct (after_setMovement_document d1 p) as (_ & Hv1 & Hb1 & He1).
  destruct (after_setMovement_fields d1 p) as (_ & Hr1 & _).
  set (p1 := after_setMovement d1 p) in *.
  assert (Hs1 : has_element "speed-slider" p1 = true) by (rewrite He1; exact Hs).
  rewrite (step_KeyDown e2 d2 p1 Hs1 Hf2 Hd2).
  destruct (after_setMovement_document d2 p1) as (_ & Hv2 & Hb2 & He2).
  destruct (after_setMovement_fields d2 p1) as (_ & Hr2 & _).
  set (p2 := after_setMovement d2 p1) in *.
  assert (Hs2 : has_element "speed-slider" p2 = true) by (rewrite He2; exact Hs1).
  rewrite (step_KeyUp e1 p2 Hs2 Hf1 Hk1).
  destruct (after_setMovement_fields Stop p2) as (Hw3 & Hr3 & Hdom3 & _).
  rewrite Hw3, Hr3, Hr2, Hr1, Hv2, Hv1. fold s.
  split; [reflexivity |]. split.
  - rewrite <- !app_assoc. reflexivity.
  - intros Hb. rewrite Hdom3, Hb2, Hb1, Hb. reflexivity.
Qed.

Lemma C2_witness :
  let q := run [KeyDown (on_body "ArrowUp"); KeyDown (on_body "ArrowLeft");
                KeyUp (on_body "ArrowUp")] index_html in
  option_map obj_direction (window_currentMovement q) = Some Stop
  /\ requests q
     = [movement_request Forward 50; movement_request Left 50;
        movement_request Stop 50].
Proof.
  intros q.
  destruct (C2_stale_key_release_stops index_html (on_body "ArrowUp")
              (on_body "ArrowLeft") Forward Left) as (H1 & H2 & _);
    try reflexivity.
  - simpl. auto.
  - simpl. auto.
  - split; [exact H1 | exact H2].
Defined.

(** C2, refuted as stated: on the page of the sources, ArrowUp down, ArrowLeft
    down, ArrowUp up leave the stored direction at stop, not at left, and the
    last command sent is a stop. *)
Lemma C2_counterexample :
  let q := run [KeyDown (on_body "ArrowUp"); KeyDown (on_body "ArrowLeft");
                KeyUp (on_body "ArrowUp")] index_html in
  option_map obj_direction (window_currentMovement q) = Some Stop
  /\ option_map obj_direction (window_currentMovement q) <> Some Left
  /\ last (requests q) (movement_request Left 50) = movement_request Stop 50.
Proof.
  repeat split. discriminate.
Qed.

Lemma run_app (evs1 evs2 : list Event) (p : Page) :
  run (evs1 ++ evs2) p = run evs2 (run evs1 p).
Proof. apply fold_left_app. Qed.

Lemma run_repeat_S (ev : Event) (n : nat) (p : Page) :
  run (repeat ev (S n)) p = step ev (run (repeat ev n) p).
Proof.
  change (repeat ev (S n)) with (ev :: repeat ev n).
  rewrite repeat_cons, run_app. reflexivity.
Qed.

(** C3 (as the code has it).  With the focus outside form controls, every
    down event of a mapped key sends one movement command, key-repeat
    included: [n + 1] down events of the same key send [n + 1] identical
    commands.  Only the stored state is idempotent: after the repeats the
    stored movement object, the document and the joystick are what they were
    after the first down event. *)
Theorem C3_key_repeat_resends_the_command
  (p : Page) (e : KeyboardEvent) (d : Direction) (n : nat) :
  has_element "speed-slider" p = true ->
  in_form_control e = false ->
  key_direction (key e) = Some d ->
  let s := speedSlider (dom p) in
  let q1 := step (KeyDown e) p in
  let qn := run (repeat (KeyDown e) (S n)) p in
  requests qn = (requests p ++ repeat (movement_request d s) (S n))%list
  /\ window_currentMovement qn = window_currentMovement q1
  /\ dom qn = dom q1
  /\ joy qn = joy q1.
Proof.
  intros Hs Hf Hk s q1.
  assert (Hq1 : q1 = after_setMovement d p) by (apply step_KeyDown; assumption).
  destruct (after_setMovement_fields d p) as (Hw1 & Hr1 & Hd1 & Hj1 & _).
  destruct (after_setMovement_document d p) as (_ & Hv1 & Hb1 & He1).
  rewrite <- Hq1 in Hw1, Hr1, Hd1, Hj1, Hv1, Hb1, He1.
  induction n as [| n IH].
  - cbv zeta. change (run (repeat (KeyDown e) 1) p) with q1.
    rewrite Hr1. auto.
  - cbv zeta in *. rewrite run_repeat_S.
    set (qn := run (repeat (KeyDown e) (S n)) p) in *.
    destruct IH as (IHr & IHw & IHd & IHj).
    assert (Hsn : has_element "speed-slider" qn = true).
    { unfold has_element. rewrite IHd.
      change (has_element "speed-slider" q1 = true). rewrite He1. exact Hs. }
    rewrite (step_KeyDown e d qn Hsn Hf Hk).
    destruct (after_setMovement_fields d qn) as (Hw & Hr & Hd & Hj & _).
    assert (Hbn : buttons_present qn = buttons_present p).
    { unfold buttons_present, has_element. rewrite IHd. exact Hb1. }
    rewrite Hw, Hr, Hd, Hj, Hbn, IHr, IHd, IHj, Hw1, Hv1.
    repeat split.
    + rewrite <- app_assoc. f_equal. fold s.
      rewrite <- repeat_cons. reflexivity.
    + rewrite Hd1. destruct (buttons_present p); reflexivity.
Qed.


Lemma C3_witness :
  requests (run (repeat (KeyDown (on_body "ArrowUp")) 3) index_html)
  = repeat (movement_request Forward 50) 3.
Proof.
  destruct (C3_key_repeat_resends_the_command index_html (on_body "ArrowUp")
              Forward 2 eq_refl eq_refl eq_refl) as (H & _).
  exact H.
Defined.

(** C3, refuted as stated: two down events of ArrowUp with no key-up in
    between send the forward command twice. *)
Lemma C3_counterexample :
  requests (run [KeyDown (on_body "ArrowUp"); KeyDown (on_body "ArrowUp")]
                index_html)
  = [movement_request Forward 50; movement_request Forward 50]
  /\ requests (run [KeyDown (on_body "ArrowUp")] index_html)
     = [movement_request Forward 50].
Proof. vm_compute. split; reflexivity. Qed.

(** ** Frame rules for the handlers *)

Section Preserves.

Variable rel : Page -> Page -> Prop.
Hypothesis rel_refl : forall p, rel p p.
Hypothesis rel_trans : forall p q r, rel p q -> rel q r -> rel p r.

Lemma preserves_ret {A : Type} (a : A) : preserves rel (ret a).
Proof. intros p. apply rel_refl. Qed.

Lemma preserves_throw {A : Type} (e : string) : preserves rel (@throw A e).
Proof. intros p. apply rel_refl. Qed.

Lemma preserves_gets {A : Type} (f : Page -> A) : preserves rel (gets f).
Proof. intros p. apply rel_refl. Qed.

Lemma preserves_lift {A : Type} (c : Completion A) : preserves rel (lift c).
Proof. intros p. apply rel_refl. Qed.

Lemma preserves_modify (f : Page -> Page) :
  (forall p, rel p (f p)) -> preserves rel (modify f).
Proof. intros H p. apply H. Qed.

Lemma preserves_bind {A B : Type} (m : M A) (k : A -> M B) :
  preserves rel m -> (forall a, preserves rel (k a)) -> preserves rel (bind m k).
Proof.
  intros Hm Hk p. unfold bind. specialize (Hm p).
  destruct (m p) as [[a | e] p']; simpl in *.
  - apply (rel_trans _ _ _ Hm). apply Hk.
  - exact Hm.
Qed.

Lemma preserves_try_catch {A : Type} (m : M A) (h : string -> M A) :
  preserves rel m -> (forall e, preserves rel (h e)) ->
  preserves rel (try_catch m h).
Proof.
  intros Hm Hh p. unfold try_catch. specialize (Hm p).
  destruct (m p) as [[a | e] p']; simpl in *.
  - exact Hm.
  - apply (rel_trans _ _ _ Hm). apply Hh.
Qed.

Lemma preserves_forEach {A : Type} (l : list A) (f : A -> M unit) :
  (forall a, preserves rel (f a)) -> preserves rel (forEach l f).
Proof.
  intros Hf. induction l as [| a l IH]; simpl.
  - apply preserves_ret.
  - apply preserves_bind; [apply Hf | intros _; exact IH].
Qed.

Lemma preserves_exec {A : Type} (m : M A) (p : Page) :
  preserves rel m -> rel p (exec m p).
Proof. intros H. apply H. Qed.

End Preserves.







(** Decomposes a handler along its statements; what is left are the calls
    of other handlers, closed by the lemmas already proved. *)
Ltac frame_rules refl trans :=
  repeat first
    [ solve [auto]
    | apply (preserves_ret _ refl)
    | apply (preserves_throw _ refl)
    | apply (preserves_gets _ refl)
    | apply (preserves_lift _ refl)
    | apply (preserves_bind _ trans); [| intros ?]
    | apply (preserves_try_catch _ trans); [| intros ?]
    | apply (preserves_forEach _ refl trans); intros ?
    | apply preserves_modify; intros ?; solve [split; auto | reflexivity]
    | match goal with
      | |- preserves _ (if ?b then _ else _) => destruct b
      | |- preserves _ (match ?x with _ => _ end) => destruct x
      end ].









(** ** Voice commands *)



Lemma executeVoiceCommand_movement (command : string) (d : Direction) :
  voice_direction command = Some d ->
  d <> Stop ->
  executeVoiceCommand command
  = (click (button_id d) ;; setTimeout ClickStopButton 2000)%js.
Proof.
  unfold voice_direction, executeVoiceCommand. intros H Hd.
  repeat match type of H with
  | (if ?b then _ else _) = _ => destruct b
  end; inversion H; subst; try reflexivity; congruence.
Qed.


Lemma click_missing (id : string) (p : Page) :
  has_element id p = false ->
  click id p = (Throw "TypeError: Cannot read properties of null", p).
Proof.
  intros H. unfold click. unfold bind at 1.
  unfold element, getElementById, bind, gets.
  unfold has_element in H. rewrite H. reflexivity.
Qed.




(** ** Navigation by voice *)

Lemma executeVoiceCommand_go_to (command : string) (p : Page) :
  voice_direction command = None ->
  includes (toLowerCase command) "go to" = true ->
  has_element "destination-select" p = true ->
  executeVoiceCommand command p
  = let p1 :=
      match voice_destination command with
      | Some dest => with_dom (set_destinationValue dest) p
      | None => p
      end in
    if String.eqb (destinationValue (dom p1)) "" then (Normal tt, p1)
    else click "navigate-btn" p1.
Proof.
  unfold voice_direction, voice_destination, executeVoiceCommand.
  intros Hv Hg He.
  destruct (includes (toLowerCase command) "forward"
            || includes (toLowerCase command) "ahead"); [discriminate |].
  destruct (includes (toLowerCase command) "left"); [discriminate |].
  destruct (includes (toLowerCase command) "right"); [discriminate |].
  destruct (includes (toLowerCase command) "back"); [discriminate |].
  destruct (includes (toLowerCase command) "stop"); [discriminate |].
  rewrite Hg. cbv beta iota. unfold bind at 1. rewrite (element_present _ _ He).
  destruct (includes (toLowerCase command) "living room");
    [| destruct (includes (toLowerCase command) "kitchen");
       [| destruct (includes (toLowerCase command) "bedroom")]];
    unfold bind, modify, gets, ret;
    match goal with |- context [String.eqb ?a ""] =>
      destruct (String.eqb a "") end; reflexivity.
Qed.

Lemma click_navigate (p : Page) :
  has_element "navigate-btn" p = true ->
  has_element "destination-select" p = true ->
  destinationValue (dom p) <> "" ->
  click "navigate-btn" p
  = (Normal tt,
     with_requests (fun l => l ++ [navigate_request (destinationValue (dom p))])
       (with_clicks (fun l => l ++ ["navigate-btn"]) p))%list.
Proof.
  intros Hn Hs Hv. unfold click. unfold bind at 1.
  rewrite (element_present _ _ Hn). unfold bind, modify.
  cbn [String.eqb Ascii.eqb Bool.eqb].
  unfold listener, async, try_catch, startNavigation. unfold bind at 1.
  rewrite (element_present "destination-select"
             (with_clicks (fun l => l ++ ["navigate-btn"])%list p) Hs).
  unfold bind, gets.
  cbn [dom with_clicks destinationValue].
  destruct (String.eqb (destinationValue (dom p)) "") eqn:E.
  - apply String.eqb_eq in E. contradiction.
  - reflexivity.
Qed.

(** An utterance falls under no movement rule exactly when its lower-case
    form contains none of the six movement keywords. *)
Lemma voice_direction_None_iff (command : string) :
  voice_direction command = None
  <-> Forall (fun keyword => includes (toLowerCase command) keyword = false)
             ["forward"; "ahead"; "left"; "right"; "back"; "stop"].
Proof.
  unfold voice_direction. split.
  - intros H.
    destruct (includes (toLowerCase command) "forward") eqn:E1;
      [discriminate |].
    destruct (includes (toLowerCase command) "ahead") eqn:E2;
      [discriminate |].
    destruct (includes (toLowerCase command) "left") eqn:E3;
      [discriminate |].
    destruct (includes (toLowerCase command) "right") eqn:E4;
      [discriminate |].
    destruct (includes (toLowerCase command) "back") eqn:E5;
      [discriminate |].
    destruct (includes (toLowerCase command) "stop") eqn:E6;
      [discriminate |].
    repeat constructor; assumption.
  - intros H.
    repeat match goal with
    | H : Forall _ (_ :: _) |- _ => inversion H; clear H; subst
    end.
    repeat match goal with
    | E : includes _ _ = false |- _ => rewrite E; clear E
    end.
    reflexivity.
Qed.

Lemma voice_destination_known (command dest : string) :
  voice_destination command = Some dest ->
  dest = "living-room" \/ dest = "kitchen" \/ dest = "bedroom".
Proof.
  unfold voice_destination. intros H.
  repeat match type of H with
  | (if ?b then _ else _) = _ => destruct b
  end; inversion H; auto.
Qed.

(** C8 (as the code has it).  For an utterance that contains "go to" and
    falls under no movement rule: when it names the living room, the kitchen
    or the bedroom (the first of them, in that order) and the destination
    select offers that place, the select takes that value, the navigate button
    is clicked and one navigate call with that destination is sent; when it
    names none of them and no destination is selected, the page is unchanged
    and no call is made. *)
Theorem C8_go_to_navigates_to_the_named_place
  (p : Page) (command : string) :
  voice_direction command = None ->
  includes (toLowerCase command) "go to" = true ->
  has_element "destination-select" p = true ->
  has_element "navigate-btn" p = true ->
  let q := exec (executeVoiceCommand command) p in
  (forall dest : string,
     voice_destination command = Some dest ->
     In dest (destinationOptions (dom p)) ->
     destinationValue (dom q) = dest
     /\ requests q = (requests p ++ [navigate_request dest])%list
     /\ clicks q = (clicks p ++ ["navigate-btn"])%list)
  /\ (voice_destination command = None ->
      destinationValue (dom p) = "" ->
      q = p).
Proof.
  intros Hv Hg Hs Hn q. subst q. unfold exec.
  rewrite (executeVoiceCommand_go_to command p Hv Hg Hs).
  split.
  - intros dest Hd Hin. rewrite Hd. cbv zeta.
    assert (Hval : destinationValue (dom (with_dom (set_destinationValue dest) p))
                   = dest).
    { simpl. replace (existsb (String.eqb dest) (destinationOptions (dom p)))
        with true; [reflexivity |].
      symmetry. apply existsb_exists. exists dest.
      split; [exact Hin | apply String.eqb_refl]. }
    assert (Hne : dest <> "").
    { destruct (voice_destination_known command dest Hd) as [E | [E | E]];
        rewrite E; discriminate. }
    rewrite Hval.
    destruct (String.eqb dest "") eqn:E;
      [apply String.eqb_eq in E; contradiction |].
    rewrite click_navigate; [| exact Hn | exact Hs | rewrite Hval; exact Hne].
    rewrite Hval. simpl. auto.
  - intros Hd He. rewrite Hd. cbv zeta. rewrite He. reflexivity.
Qed.

Lemma C8_witness :
  let q := exec (executeVoiceCommand "go to the kitchen") index_html in
  destinationValue (dom q) = "kitchen"
  /\ requests q = [navigate_request "kitchen"]
  /\ clicks q = ["navigate-btn"].
Proof.
  intros q.
  assert (Hin : In "kitchen" (destinationOptions (dom index_html))).
  { simpl. auto. }
  exact (proj1 (C8_go_to_navigates_to_the_named_place index_html
                  "go to the kitchen" eq_refl eq_refl eq_refl eq_refl)
               "kitchen" eq_refl Hin).
Defined.

(** C8, refuted as stated.  With "bedroom" already chosen in the destination
    select, "go to the garage" names no known place and still sends a navigate
    call, to the bedroom.  And "go to the kitchen, then stop" contains "go to"
    and a known place, yet it falls under the stop rule, which comes first:
    no navigate call is sent. *)
Lemma C8_counterexample :
  let chosen := with_dom (set_destinationValue "bedroom") index_html in
  voice_destination "go to the garage" = None
  /\ requests (exec (executeVoiceCommand "go to the garage") chosen)
     = [navigate_request "bedroom"]
  /\ includes (toLowerCase "go to the kitchen, then stop") "go to" = true
  /\ voice_destination "go to the kitchen, then stop" = Some "kitchen"
  /\ requests (exec (executeVoiceCommand "go to the kitchen, then stop")
                    (with_buttons true index_html))
     = [movement_request Stop 50].
Proof. vm_compute. repeat split. Qed.

(** ** Service calls *)

Lemma callApi_settled_run (o : FetchOutcome) (p : Page) :
  callApi_settled o p
  = match callApi_try o with
    | Normal r => (Normal r, p)
    | Throw message =>
        (Normal (mkApiResponse false (Some message) None),
         with_console
           (fun l => l ++ [console_error "API call error:" (Some message)])%list
           p)
    end.
Proof.
  unfold callApi_settled, try_catch, lift.
  destruct (callApi_try o); reflexivity.
Qed.

Lemma callApi_try_failure (o : FetchOutcome) (message : string) :
  transport_failure o = Some message -> callApi_try o = Throw message.
Proof.
  destruct o as [m | [|] status [r | m]]; simpl; intros H;
    inversion H; reflexivity.
Qed.

Lemma sendMovementCommand_settled_run (o : FetchOutcome) (p : Page) :
  sendMovementCommand_settled o p
  = match callApi_settled o p with
    | (Normal r, q) =>
        if success r then (Normal tt, q)
        else (Normal tt,
              with_console
                (fun l => l ++ [console_error "Failed to send movement command:"
                                              (error r)])%list q)
    | (Throw e, q) =>
        (Normal tt,
         with_console
           (fun l => l ++ [console_error "Error sending movement command:"
                                         (Some e)])%list q)
    end.
Proof.
  unfold sendMovementCommand_settled, try_catch, bind.
  destruct (callApi_settled o p) as [[r | e] q]; [| reflexivity].
  destruct (success r); reflexivity.
Qed.

Lemma only_console_differs_with_console
  (f : list ConsoleEntry -> list ConsoleEntry) (p : Page) :
  only_console_differs p (with_console f p).
Proof. repeat split. Qed.

Lemma only_console_differs_refl (p : Page) : only_console_differs p p.
Proof. repeat split. Qed.

(** C9.  The promise of [callApi] never rejects: however the fetch settles
    it yields a reply object, and for a transport failure (rejected fetch,
    status outside 2xx, body that is not JSON) the error is logged and the
    object is [{success: false, error: message}].  When a movement call
    settles, whatever the outcome, nothing but the console changes: the
    stored direction, the highlighted button, the joystick, the pending
    timers and the list of calls already made are as before, so nothing is
    reverted and nothing is sent again; a transport failure leaves the two
    error entries of [callApi] and [sendMovementCommand].  For a left command
    whose call fails with "timeout", or is answered by [{success: false,
    error: "timeout"}], the direction stays left and the failure is logged. *)
Theorem C9_failures_become_replies_and_keep_the_state :
  (forall (o : FetchOutcome) (p : Page),
     exists r : ApiResponse, fst (callApi_settled o p) = Normal r)
  /\ (forall (o : FetchOutcome) (message : string) (p : Page),
        transport_failure o = Some message ->
        callApi_settled o p
        = (Normal (mkApiResponse false (Some message) None),
           with_console
             (fun l => l ++ [console_error "API call error:" (Some message)])
             p))
  /\ (forall (o : FetchOutcome) (p : Page),
        only_console_differs p (step (MovementSettled o) p))
  /\ (forall (o : FetchOutcome) (message : string) (p : Page),
        transport_failure o = Some message ->
        console (step (MovementSettled o) p)
        = console p ++
          [console_error "API call error:" (Some message);
           console_error "Failed to send movement command:" (Some message)])
  /\ (let failed :=
        run [KeyDown (on_body "ArrowLeft");
             MovementSettled (fetch_rejected "timeout")]
            (with_buttons false index_html) in
      let refused :=
        run [KeyDown (on_body "ArrowLeft");
             MovementSettled
               (fetch_resolved true 200
                  (Normal (mkApiResponse false (Some "timeout") None)))]
            (with_buttons false index_html) in
      option_map obj_direction (window_currentMovement failed) = Some Left
      /\ activeButton (dom failed) = Some Left
      /\ requests failed = [movement_request Left 50]
      /\ console failed
         = [console_error "API call error:" (Some "timeout");
            console_error "Failed to send movement command:" (Some "timeout")]
      /\ option_map obj_direction (window_currentMovement refused) = Some Left
      /\ activeButton (dom refused) = Some Left
      /\ requests refused = [movement_request Left 50]
      /\ console refused
         = [console_error "Failed to send movement command:" (Some "timeout")]).
Proof.
  split; [| split; [| split; [| split]]].
  - intros o p. rewrite callApi_settled_run.
    destruct (callApi_try o); eexists; reflexivity.
  - intros o message p H.
    rewrite callApi_settled_run, (callApi_try_failure o message H).
    reflexivity.
  - intros o p. unfold step, dispatch, exec, listener, try_catch.
    rewrite sendMovementCommand_settled_run, callApi_settled_run.
    destruct (callApi_try o) as [r | e].
    + destruct (success r); simpl.
      * apply only_console_differs_refl.
      * apply only_console_differs_with_console.
    + simpl. repeat split.
  - intros o message p H. unfold step, dispatch, exec, listener, try_catch.
    rewrite sendMovementCommand_settled_run, callApi_settled_run,
      (callApi_try_failure o message H).
    simpl. rewrite <- app_assoc. reflexivity.
  - vm_compute. repeat split.
Qed.

Lemma C9_witness :
  callApi_settled (fetch_resolved false 503 (Throw "Unexpected token"))
                  index_html
  = (Normal (mkApiResponse false (Some "API call failed: 503") None),
     with_console
       (fun l => l ++ [console_error "API call error:"
                                     (Some "API call failed: 503")])
       index_html).
Proof.
  exact (proj1 (proj2 C9_failures_become_replies_and_keep_the_state)
           (fetch_resolved false 503 (Throw "Unexpected token"))
           "API call failed: 503" index_html eq_refl).
Defined.

(** * Further properties of the scripts *)

(** ** Joystick: the speed of a move *)

Lemma Math_round_bounds (s : Z) (m : R) :
  (0 <= s)%Z -> 0 <= m <= 1 ->
  (0 <= Math_round (IZR s * m) <= s)%Z.
Proof.
  intros Hs [Hm0 Hm1]. unfold Math_round, Math_floor.
  assert (HsR : 0 <= IZR s) by (apply IZR_le; exact Hs).
  set (x := IZR s * m + / 2).
  destruct (archimed x) as [Hup1 Hup2].
  assert (Hx0 : 0 < x) by (unfold x; nra).
  assert (Hx1 : x < IZR s + 1) by (unfold x; nra).
  split.
  - assert (H : (0 < up x)%Z); [| lia].
    apply lt_IZR. lra.
  - assert (H : (up x < s + 2)%Z); [| lia].
    apply lt_IZR. rewrite plus_IZR. lra.
Qed.

Lemma magnitude_bounds (dx dy : R) :
  0 <= Rmin (sqrt (dx * dx + dy * dy)) maxDistance / maxDistance <= 1.
Proof.
  unfold maxDistance.
  pose proof (sqrt_pos (dx * dx + dy * dy)) as Hs.
  pose proof (Rmin_l (sqrt (dx * dx + dy * dy)) 50) as Hl.
  pose proof (Rmin_r (sqrt (dx * dx + dy * dy)) 50) as Hr.
  assert (H0 : 0 <= Rmin (sqrt (dx * dx + dy * dy)) 50).
  { apply Rmin_glb; lra. }
  split; lra.
Qed.



(** ** Slider, invariants of the joystick, keyboard *)

Lemma step_SliderInput_deflected (v : Z) (p : Page) :
  0 < distance (currentMovement (joy p)) ->
  step (SliderInput v) p
  = exec updateMovement
      (with_joy (fun j =>
         set_currentMovement
           (mkMovement (angle (currentMovement j))
                       (distance (currentMovement j)) v) j)
         (with_dom (set_speedSlider v) p)).
Proof.
  intros Hpos.
  unfold step, dispatch, exec, listener, try_catch, speedSlider_input,
    bind, gets, modify.
  cbn -[Rltb updateMovement].
  replace (Rltb 0 (distance (currentMovement (joy p)))) with true.
  - rewrite updateMovement_run. reflexivity.
  - symmetry. apply Rltb_true_iff. exact Hpos.
Qed.

Lemma step_SliderInput_joy (v : Z) (p : Page) :
  joy (step (SliderInput v) p)
  = set_currentMovement
      (mkMovement (angle (currentMovement (joy p)))
                  (distance (currentMovement (joy p))) v)
      (joy p)
  /\ speedSlider (dom (step (SliderInput v) p)) = v.
Proof.
  destruct (Rlt_le_dec 0 (distance (currentMovement (joy p)))) as [Hpos | Hle].
  - rewrite (step_SliderInput_deflected v p Hpos).
    unfold exec. rewrite updateMovement_run. split; reflexivity.
  - rewrite (step_SliderInput_idle v p Hle). split; reflexivity.
Qed.

Lemma step_PointerMove_idle (e : PointerEvent) (p : Page) :
  isDragging (joy p) = false -> step (PointerMove e) p = p.
Proof.
  intros Hd. unfold step, dispatch, exec, listener, try_catch.
  rewrite (handleMove_idle e p Hd). reflexivity.
Qed.

Lemma step_PointerUp_idle (p : Page) :
  isDragging (joy p) = false -> step PointerUp p = p.
Proof.
  intros Hd. unfold step, dispatch, exec, listener, try_catch.
  rewrite (handleEnd_idle p Hd). reflexivity.
Qed.

(** X4.  Moving the speed slider stores the new cruise speed and keeps the
    joystick vector.  With a stored magnitude that is not positive it sends
    nothing.  With a positive one it sends one command: never a stop, at a
    speed between 0 and the new cruise speed, and, when the vector was
    stored by a move of the drag, in the direction of the command of that
    move. *)
Theorem slider_rescales_only_a_deflected_joystick (p : Page) (v : Z) :
  let m := currentMovement (joy p) in
  let q := step (SliderInput v) p in
  currentMovement (joy q) = mkMovement (angle m) (distance m) v
  /\ speedSlider (dom q) = v
  /\ (distance m <= 0 -> requests q = requests p)
  /\ (0 < distance m ->
      exists (d : Direction) (s : Z),
        requests q = (requests p ++ [movement_request d s])%list
        /\ d <> Stop
        /\ ((0 <= v)%Z -> distance m <= 1 -> (0 <= s <= v)%Z)
        /\ (forall (p0 : Page) (e : PointerEvent) (c : R * R),
              isDragging (joy p0) = true ->
              pointer e = Some c ->
              p = step (PointerMove e) p0 ->
              exists s0 : Z,
                requests p
                = (requests p0 ++ [movement_request d s0])%list)).
Proof.
  intros m q. subst q.
  destruct (step_SliderInput_joy v p) as [Hj Hv].
  split; [rewrite Hj; reflexivity |].
  split; [exact Hv |].
  split.
  - intros Hle. rewrite (step_SliderInput_idle v p Hle). reflexivity.
  - intros Hpos. rewrite (step_SliderInput_deflected v p Hpos).
    unfold exec. rewrite updateMovement_run.
    eexists. eexists. split; [reflexivity |]. split; [| split].
    + unfold directionOf. Rcompare; discriminate.
    + intros H0 H1. apply Math_round_bounds; [exact H0 |].
      simpl. fold m. lra.
    + intros p0 e [cx cy] Hd He ->.
      rewrite (step_PointerMove_sends e cx cy p0 Hd He).
      eexists. reflexivity.
Qed.

Lemma slider_rescales_only_a_deflected_joystick_witness :
  let p0 := step (PointerDown (MouseEvent 50 50)) index_html in
  let p := step (PointerMove (MouseEvent 150 50)) p0 in
  requests (step (SliderInput 80) index_html) = requests index_html
  /\ exists (d : Direction) (s s0 : Z),
       requests (step (SliderInput 80) p)
       = (requests p ++ [movement_request d s])%list
       /\ requests p = (requests p0 ++ [movement_request d s0])%list
       /\ (0 <= s <= 80)%Z.
Proof.
  intros p0 p.
  assert (Hidle : distance (currentMovement (joy index_html)) <= 0)
    by (simpl; lra).
  split.
  - exact (proj1 (proj2 (proj2
             (slider_rescales_only_a_deflected_joystick index_html 80)))
             Hidle).
  - destruct pressed_at_center as (Hd & Hx & Hy & _). fold p0 in Hd, Hx, Hy.
    clearbody p0.
    assert (Hm : distance (currentMovement (joy p)) = 1).
    { subst p.
      rewrite (step_PointerMove_sends (MouseEvent 150 50) 150 50 p0 Hd eq_refl).
      simpl. rewrite Hx, Hy. unfold maxDistance.
      replace ((150 - 50) * (150 - 50) + (50 - 50) * (50 - 50))
        with (100 * 100) by ring.
      rewrite sqrt_square by lra. rewrite Rmin_right by lra. lra. }
    assert (Hpos : 0 < distance (currentMovement (joy p))) by (rewrite Hm; lra).
    assert (Hle : distance (currentMovement (joy p)) <= 1) by (rewrite Hm; lra).
    assert (Hv : (0 <= 80)%Z) by lia.
    destruct (proj2 (proj2 (proj2
               (slider_rescales_only_a_deflected_joystick p 80))) Hpos)
      as (d & s & Hr & _ & Hb & Hsame).
    destruct (Hsame p0 (MouseEvent 150 50) (150, 50) Hd eq_refl eq_refl)
      as (s0 & Hr0).
    exists d, s, s0. split; [exact Hr |]. split; [exact Hr0 |].
    exact (Hb Hv Hle).
Defined.

Lemma keeps_joy_refl (p : Page) : keeps_joy p p.
Proof. reflexivity. Qed.

Lemma keeps_joy_trans (p q r : Page) :
  keeps_joy p q -> keeps_joy q r -> keeps_joy p r.
Proof. unfold keeps_joy. congruence. Qed.

Lemma keeps_slider_refl (p : Page) : keeps_slider p p.
Proof. reflexivity. Qed.

Lemma keeps_slider_trans (p q r : Page) :
  keeps_slider p q -> keeps_slider q r -> keeps_slider p r.
Proof. unfold keeps_slider. congruence. Qed.

Lemma keeps_window_refl (p : Page) : keeps_window p p.
Proof. reflexivity. Qed.

Lemma keeps_window_trans (p q r : Page) :
  keeps_window p q -> keeps_window q r -> keeps_window p r.
Proof. unfold keeps_window. congruence. Qed.

Ltac joy_frame := frame_rules keeps_joy_refl keeps_joy_trans.
Ltac slider_frame := frame_rules keeps_slider_refl keeps_slider_trans.
Ltac window_frame := frame_rules keeps_window_refl keeps_window_trans.

Lemma joy_setMovement (d : Direction) : preserves keeps_joy (setMovement d).
Proof.
  unfold setMovement, sendMovementCommand, callApi, fetch, updateButtonState,
    element, getElementById. joy_frame.
Qed.

Lemma slider_setMovement (d : Direction) :
  preserves keeps_slider (setMovement d).
Proof.
  unfold setMovement, sendMovementCommand, callApi, fetch, updateButtonState,
    element, getElementById. slider_frame.
Qed.

Lemma joy_click (id : string) : preserves keeps_joy (click id).
Proof.
  pose proof joy_setMovement as Hs.
  unfold click, listener, async, startNavigation, button_listener, callApi,
    fetch, error_log, element, getElementById. joy_frame.
Qed.

Lemma slider_click (id : string) : preserves keeps_slider (click id).
Proof.
  pose proof slider_setMovement as Hs.
  unfold click, listener, async, startNavigation, button_listener, callApi,
    fetch, error_log, element, getElementById. slider_frame.
Qed.

Lemma joy_executeVoiceCommand (command : string) :
  preserves keeps_joy (executeVoiceCommand command).
Proof.
  pose proof joy_click as Hc.
  unfold executeVoiceCommand, setTimeout, element, getElementById. joy_frame.
Qed.

Lemma slider_executeVoiceCommand (command : string) :
  preserves keeps_slider (executeVoiceCommand command).
Proof.
  pose proof slider_click as Hc.
  unfold executeVoiceCommand, setTimeout, element, getElementById.
  slider_frame.
Qed.

(** Events the joystick does not listen to leave its variables alone. *)
Lemma step_keeps_joy (ev : Event) (p : Page) :
  joystick_event ev = false -> joy (step ev p) = joy p.
Proof.
  pose proof joy_setMovement as Hs. pose proof joy_click as Hc.
  pose proof joy_executeVoiceCommand as Hv.
  intros Hev. destruct ev; try discriminate; unfold step, dispatch.
  - apply (preserves_exec keeps_joy). unfold listener, handleKeyDown.
    joy_frame.
  - apply (preserves_exec keeps_joy). unfold listener, handleKeyUp.
    joy_frame.
  - apply (preserves_exec keeps_joy).
    unfold listener, async, processVoiceCommand, callApi, fetch. joy_frame.
  - apply (preserves_exec keeps_joy).
    unfold listener, processVoiceCommand_settled, callApi_settled, setTimeout,
      error_log, displayAIResponse. joy_frame.
  - apply (preserves_exec keeps_joy).
    unfold listener, sendMovementCommand_settled, callApi_settled, error_log.
    joy_frame.
  - reflexivity.
  - destruct (timers p) as [| [due cb] rest]; [reflexivity |].
    destruct (due <=? now p)%Z; [| reflexivity].
    apply (preserves_exec keeps_joy _
             (with_timers (fun _ => rest) p)).
    unfold listener, run_callback, displayAIResponse. joy_frame.
Qed.

Lemma slider_handleMove (e : PointerEvent) :
  preserves keeps_slider (handleMove e).
Proof.
  unfold handleMove, client, updateMovement, sendMovementCommand, callApi,
    fetch. slider_frame.
Qed.

(** Only the slider's own event changes what the slider shows. *)
Lemma step_keeps_slider (ev : Event) (p : Page) :
  (forall v, ev <> SliderInput v) ->
  speedSlider (dom (step ev p)) = speedSlider (dom p).
Proof.
  pose proof slider_setMovement as Hs. pose proof slider_click as Hc.
  pose proof slider_executeVoiceCommand as Hv.
  pose proof slider_handleMove as Hm.
  intros Hev. destruct ev; unfold step, dispatch.
  - apply (preserves_exec keeps_slider). unfold listener, handleStart.
    slider_frame.
  - apply (preserves_exec keeps_slider). unfold listener. slider_frame.
  - apply (preserves_exec keeps_slider).
    unfold listener, handleEnd, sendMovementCommand, callApi, fetch,
      updateButtonState, setTimeout, element, getElementById.
    slider_frame.
  - exfalso. apply (Hev value). reflexivity.
  - apply (preserves_exec keeps_slider). unfold listener, handleKeyDown.
    slider_frame.
  - apply (preserves_exec keeps_slider). unfold listener, handleKeyUp.
    slider_frame.
  - apply (preserves_exec keeps_slider).
    unfold listener, async, processVoiceCommand, callApi, fetch. slider_frame.
  - apply (preserves_exec keeps_slider).
    unfold listener, processVoiceCommand_settled, callApi_settled, setTimeout,
      error_log, displayAIResponse. slider_frame.
  - apply (preserves_exec keeps_slider).
    unfold listener, sendMovementCommand_settled, callApi_settled, error_log.
    slider_frame.
  - reflexivity.
  - destruct (timers p) as [| [due cb] rest]; [reflexivity |].
    destruct (due <=? now p)%Z; [| reflexivity].
    apply (preserves_exec keeps_slider _
             (with_timers (fun _ => rest) p)).
    unfold listener, run_callback, displayAIResponse. slider_frame.
Qed.

Lemma step_PointerMove_no_point (e : PointerEvent) (p : Page) :
  isDragging (joy p) = true ->
  pointer e = None ->
  step (PointerMove e) p
  = with_console
      (fun l => l ++ [uncaught "TypeError: Cannot read properties of undefined"])
      p.
Proof.
  intros Hd He.
  unfold step, dispatch, exec, listener, try_catch, handleMove, bind, gets,
    client.
  rewrite Hd, He. reflexivity.
Qed.

Lemma joystick_ok_moved (dx dy : R) (j : Joystick) :
  isDragging j = true -> joystick_ok (moved dx dy j).
Proof.
  intros Hd. split.
  - apply magnitude_bounds.
  - simpl. rewrite Hd. discriminate.
Qed.

Lemma step_joystick_ok (ev : Event) (p : Page) :
  joystick_ok (joy p) -> joystick_ok (joy (step ev p)).
Proof.
  intros Hok.
  assert (Hmove : forall e q,
            joystick_ok (joy q) -> joystick_ok (joy (step (PointerMove e) q))).
  { intros e q Hq. destruct (isDragging (joy q)) eqn:Hd.
    - destruct (pointer e) as [[cx cy] |] eqn:He.
      + rewrite (step_PointerMove_sends e cx cy q Hd He). simpl.
        apply joystick_ok_moved. exact Hd.
      + rewrite (step_PointerMove_no_point e q Hd He). exact Hq.
    - rewrite (step_PointerMove_idle e q Hd). exact Hq. }
  destruct (joystick_event ev) eqn:Hev.
  - destruct ev; try discriminate.
    + rewrite step_PointerDown_run. apply Hmove.
      destruct Hok as [Hb _]. split; [exact Hb | discriminate].
    + apply Hmove. exact Hok.
    + destruct (isDragging (joy p)) eqn:Hd.
      * destruct (step_PointerUp_dragging p Hd) as (Hj & _).
        rewrite Hj. split; simpl; [lra | auto].
      * rewrite (step_PointerUp_idle p Hd). exact Hok.
    + destruct (step_SliderInput_joy value p) as [Hj _].
      destruct Hok as [Hb Hidle]. rewrite Hj.
      split; [exact Hb | exact Hidle].
  - rewrite (step_keeps_joy ev p Hev). exact Hok.
Qed.

(** X5.  Whatever events arrive, the magnitude stored by the joystick stays in
    [0, 1] and a joystick that is not being dragged is centred, with angle 0
    and magnitude 0; hence moving the speed slider while no drag is active
    never sends a command. *)
Theorem idle_joystick_is_centred (evs : list Event) (p : Page) :
  joystick_ok (joy p) ->
  joystick_ok (joy (run evs p))
  /\ (isDragging (joy (run evs p)) = false ->
      forall v : Z,
        requests (step (SliderInput v) (run evs p)) = requests (run evs p)).
Proof.
  intros Hok.
  assert (H : joystick_ok (joy (run evs p))).
  { revert p Hok. induction evs as [| ev evs IH]; intros p Hok.
    - exact Hok.
    - apply (IH (step ev p)). apply step_joystick_ok. exact Hok. }
  split; [exact H |].
  intros Hidle v. destruct H as [_ Hc]. destruct (Hc Hidle) as (_ & Hd & _).
  rewrite (step_SliderInput_idle v (run evs p)) by lra. reflexivity.
Qed.

Lemma idle_joystick_is_centred_witness :
  let q := run [PointerDown (MouseEvent 70 40); PointerUp] index_html in
  joystick_ok (joy q).
Proof.
  assert (H : joystick_ok (joy index_html)).
  { split; simpl; [lra | auto]. }
  exact (proj1 (idle_joystick_is_centred
                  [PointerDown (MouseEvent 70 40); PointerUp] index_html H)).
Defined.

Lemma step_speed_in_sync (ev : Event) (p : Page) :
  speed_in_sync p -> speed_in_sync (step ev p).
Proof.
  unfold speed_in_sync. intros Hs.
  destruct ev;
    try (rewrite step_keeps_joy by reflexivity;
         rewrite step_keeps_slider by (intros v; discriminate); exact Hs).
  - rewrite step_keeps_slider by (intros v; discriminate).
    destruct (step_PointerDown_starts_dragging e p) as [_ E]. congruence.
  - rewrite step_keeps_slider by (intros v; discriminate).
    destruct (step_PointerMove_keeps_dragging e p) as [_ E]. congruence.
  - rewrite step_keeps_slider by (intros v; discriminate).
    destruct (isDragging (joy p)) eqn:Hd.
    + destruct (step_PointerUp_dragging p Hd) as (Hj & _).
      rewrite Hj. exact Hs.
    + rewrite (step_PointerUp_idle p Hd). exact Hs.
  - destruct (step_SliderInput_joy value p) as [Hj Hv].
    rewrite Hj, Hv. reflexivity.
Qed.

(** X6.  The cruise speed the joystick scales always equals the value of the
    speed slider, which is the speed the keyboard sends: once they agree, no
    sequence of events makes them differ.  So a drag to the maximum radius
    or beyond sends exactly the slider value. *)
Theorem joystick_cruise_speed_tracks_slider (evs : list Event) (p : Page) :
  speed_in_sync p ->
  let q := run evs p in
  speed_in_sync q
  /\ (forall (e : PointerEvent) (cx cy : R),
        isDragging (joy q) = true ->
        pointer e = Some (cx, cy) ->
        maxDistance
        <= sqrt ((cx - startX (joy q)) * (cx - startX (joy q))
                 + (cy - startY (joy q)) * (cy - startY (joy q))) ->
        exists d : Direction,
          requests (step (PointerMove e) q)
          = (requests q ++ [movement_request d (speedSlider (dom q))])%list).
Proof.
  intros Hs q.
  assert (H : speed_in_sync q).
  { subst q. revert p Hs. induction evs as [| ev evs IH]; intros p Hs.
    - exact Hs.
    - apply (IH (step ev p)). apply step_speed_in_sync. exact Hs. }
  split; [exact H |].
  intros e cx cy Hd He Hrim.
  rewrite (step_PointerMove_sends e cx cy q Hd He).
  rewrite Rmin_right by exact Hrim.
  replace (maxDistance / maxDistance) with 1 by (unfold maxDistance; lra).
  rewrite Rmult_1_r, Math_round_IZR, H.
  eexists. reflexivity.
Qed.

Lemma joystick_cruise_speed_tracks_slider_witness :
  speed_in_sync
    (run [SliderInput 30; PointerDown (MouseEvent 90 50); SliderInput 70;
          KeyDown (on_body "ArrowUp"); PointerUp] index_html).
Proof.
  exact (proj1 (joystick_cruise_speed_tracks_slider
                  [SliderInput 30; PointerDown (MouseEvent 90 50);
                   SliderInput 70; KeyDown (on_body "ArrowUp"); PointerUp]
                  index_html eq_refl)).
Defined.

Lemma window_handleMove (e : PointerEvent) :
  preserves keeps_window (handleMove e).
Proof.
  unfold handleMove, client, updateMovement, sendMovementCommand, callApi,
    fetch. window_frame.
Qed.

Lemma step_keeps_window (ev : Event) (p : Page) :
  joystick_event ev = true ->
  window_currentMovement (step ev p) = window_currentMovement p.
Proof.
  pose proof window_handleMove as Hm.
  intros Hev. destruct ev; try discriminate; unfold step, dispatch.
  - apply (preserves_exec keeps_window). unfold listener, handleStart.
    window_frame.
  - apply (preserves_exec keeps_window). unfold listener. window_frame.
  - apply (preserves_exec keeps_window).
    unfold listener, handleEnd, sendMovementCommand, callApi, fetch,
      updateButtonState, setTimeout, element, getElementById.
    window_frame.
  - apply (preserves_exec keeps_window _ (with_dom (set_speedSlider value) p)).
    unfold listener, speedSlider_input, updateMovement, sendMovementCommand,
      callApi, fetch.
    window_frame.
Qed.

(** X7.  The keyboard and the joystick keep two separate records.  A key event,
    the space bar's stop included, never changes the joystick: the drag goes
    on, with its angle and magnitude, and the next move sends the very
    command it would have sent without the key.  And no pointer or slider
    event changes the movement object the keyboard stores. *)
Theorem keyboard_and_joystick_use_separate_stores :
  (forall (ke : KeyboardEvent) (p : Page),
     joy (step (KeyDown ke) p) = joy p /\ joy (step (KeyUp ke) p) = joy p)
  /\ (forall (ev : Event) (p : Page),
        joystick_event ev = true ->
        window_currentMovement (step ev p) = window_currentMovement p)
  /\ (forall (ke : KeyboardEvent) (pe : PointerEvent) (cx cy : R) (p : Page),
        isDragging (joy p) = true ->
        pointer pe = Some (cx, cy) ->
        exists r : Request,
          requests (step (PointerMove pe) p) = (requests p ++ [r])%list
          /\ requests (step (PointerMove pe) (step (KeyDown ke) p))
             = (requests (step (KeyDown ke) p) ++ [r])%list).
Proof.
  split; [| split].
  - intros ke p. split; apply step_keeps_joy; reflexivity.
  - exact step_keeps_window.
  - intros ke pe cx cy p Hd He.
    assert (Hj : joy (step (KeyDown ke) p) = joy p)
      by (apply step_keeps_joy; reflexivity).
    assert (Hd' : isDragging (joy (step (KeyDown ke) p)) = true)
      by (rewrite Hj; exact Hd).
    rewrite (step_PointerMove_sends pe cx cy p Hd He).
    rewrite (step_PointerMove_sends pe cx cy _ Hd' He).
    rewrite Hj. eexists. split; reflexivity.
Qed.

Lemma keyboard_and_joystick_use_separate_stores_witness :
  let p := step (PointerDown (MouseEvent 50 50)) index_html in
  exists r : Request,
    requests (step (PointerMove (MouseEvent 60 50)) p) = (requests p ++ [r])%list
    /\ requests (step (PointerMove (MouseEvent 60 50))
                      (step (KeyDown (on_body " ")) p))
       = (requests (step (KeyDown (on_body " ")) p) ++ [r])%list.
Proof.
  intros p.
  destruct pressed_at_center as (Hd & _). fold p in Hd.
  exact (proj2 (proj2 keyboard_and_joystick_use_separate_stores)
           (on_body " ") (MouseEvent 60 50) 60 50 p Hd eq_refl).
Defined.

(** X8.  On a page that lacks one of the five direction buttons, as the page of
    the sources does, [updateButtonState] throws after the command has left:
    a mapped key still stores its direction and sends its command, and a
    release still resets the joystick and sends the stop, but no button is
    highlighted, a TypeError is reported each time, and the release never
    schedules the timer that ends the handle animation. *)
Theorem commands_survive_missing_buttons (p : Page) :
  buttons_present p = false ->
  (forall (ke : KeyboardEvent) (d : Direction),
     has_element "speed-slider" p = true ->
     in_form_control ke = false ->
     key_direction (key ke) = Some d ->
     let q := step (KeyDown ke) p in
     requests q
     = (requests p ++ [movement_request d (speedSlider (dom p))])%list
     /\ option_map obj_direction (window_currentMovement q) = Some d
     /\ activeButton (dom q) = activeButton (dom p)
     /\ console q
        = (console p
           ++ [uncaught "TypeError: Cannot read properties of null"])%list)
  /\ (isDragging (joy p) = true ->
      let q := step PointerUp p in
      requests q = (requests p ++ [movement_request Stop 0])%list
      /\ isDragging (joy q) = false
      /\ distance (currentMovement (joy q)) = 0
      /\ activeButton (dom q) = activeButton (dom p)
      /\ timers q = timers p
      /\ console q
         = (console p
            ++ [uncaught "TypeError: Cannot read properties of null"])%list).
Proof.
  intros Hb. split.
  - intros ke d Hs Hf Hk q. subst q.
    rewrite (step_KeyDown ke d p Hs Hf Hk).
    unfold after_setMovement. rewrite Hb. simpl.
    repeat split. destruct d; reflexivity.
  - intros Hd q. subst q.
    unfold step, dispatch, exec, listener, try_catch.
    rewrite (handleEnd_dragging p Hd), Hb. simpl. repeat split.
Qed.

Lemma commands_survive_missing_buttons_witness :
  let q := step (KeyDown (on_body "ArrowUp")) index_html in
  requests q = [movement_request Forward 50]
  /\ activeButton (dom q) = None
  /\ console q = [uncaught "TypeError: Cannot read properties of null"].
Proof.
  intros q.
  destruct (proj1 (commands_survive_missing_buttons index_html eq_refl)
              (on_body "ArrowUp") Forward eq_refl eq_refl eq_refl)
    as (H1 & _ & H3 & H4).
  repeat split; assumption.
Defined.

(** X9.  Key events are ignored when their target is an input, a textarea or a
    select; so are down events of keys other than the four arrows and the
    space bar, and up events of keys other than the four arrows: releasing
    the space bar sends nothing. *)
Theorem keyboard_ignores_form_controls_and_other_keys
  (ke : KeyboardEvent) (p : Page) :
  (in_form_control ke = true ->
   step (KeyDown ke) p = p /\ step (KeyUp ke) p = p)
  /\ (key_direction (key ke) = None -> step (KeyDown ke) p = p)
  /\ (~ In (key ke) arrow_keys -> step (KeyUp ke) p = p).
Proof.
  split; [| split].
  - intros H. unfold step, dispatch, exec, listener, try_catch, handleKeyDown,
      handleKeyUp. rewrite H. split; reflexivity.
  - intros H. destruct (in_form_control ke) eqn:Hf.
    + unfold step, dispatch, exec, listener, try_catch, handleKeyDown.
      rewrite Hf. reflexivity.
    + unfold step, dispatch, exec, listener, try_catch.
      rewrite (handleKeyDown_run ke Hf), H. reflexivity.
  - intros H. unfold step, dispatch, exec, listener, try_catch, handleKeyUp.
    destruct (in_form_control ke); [reflexivity |].
    replace (existsb (String.eqb (key ke))
               ["ArrowUp"; "ArrowDown"; "ArrowLeft"; "ArrowRight"])
      with false; [reflexivity |].
    symmetry. apply not_true_is_false. intros E.
    apply existsb_exists in E. destruct E as (k & Hin & Hk).
    apply String.eqb_eq in Hk. subst k. exact (H Hin).
Qed.

Lemma keyboard_ignores_form_controls_and_other_keys_witness :
  step (KeyDown (mkKeyboardEvent "ArrowUp" "INPUT")) index_html = index_html
  /\ step (KeyUp (on_body " ")) index_html = index_html.
Proof.
  split.
  - exact (proj1 (proj1 (keyboard_ignores_form_controls_and_other_keys
                           (mkKeyboardEvent "ArrowUp" "INPUT") index_html)
                        eq_refl)).
  - apply (proj2 (proj2 (keyboard_ignores_form_controls_and_other_keys
                           (on_body " ") index_html))).
    simpl. intros [H | [H | [H | [H | H]]]]; try discriminate; exact H.
Defined.

(** ** Voice commands and navigation: refusals *)

Lemma processVoiceCommand_settled_run
  (command : string) (o : FetchOutcome) (p : Page) :
  processVoiceCommand_settled command o p
  = match callApi_settled o p with
    | (Normal r, q) =>
        if success r then
          match executeVoiceCommand command
                  (with_timers
                     (insert_timer ((now q + 1000)%Z, DisplayAIResponse r)) q)
          with
          | (Normal a, q') => (Normal a, q')
          | (Throw e, q') =>
              (Normal tt,
               with_dom
                 (set_voiceOutput
                    "Sorry, there was an error processing your command.")
                 (with_console
                    (fun l => l ++ [console_error
                                      "Error processing voice command:"
                                      (Some e)])%list q'))
          end
        else
          (Normal tt,
           with_dom
             (set_voiceOutput "Sorry, I could not process that command.")
             (with_console
                (fun l => l ++ [console_error
                                  "Failed to process voice command:"
                                  (error r)])%list q))
    | (Throw e, q) =>
        (Normal tt,
         with_dom
           (set_voiceOutput
              "Sorry, there was an error processing your command.")
           (with_console
              (fun l => l ++ [console_error "Error processing voice command:"
                                            (Some e)])%list q))
    end.
Proof.
  unfold processVoiceCommand_settled, try_catch. unfold bind at 1.
  destruct (callApi_settled o p) as [[r | e] q]; [| reflexivity].
  destruct (success r); [| reflexivity].
  unfold bind, setTimeout, modify.
  match goal with |- context [executeVoiceCommand command ?x] =>
    destruct (executeVoiceCommand command x) as [[[] | e] q']
  end; reflexivity.
Qed.

(** X10.  When the voice service fails in transport, or answers without success,
    the utterance is not executed, whatever it says, "stop" included: no
    button is clicked, no call is made, no timer is set, the stored movement
    and the joystick are untouched, and the assistant shows its apology. *)
Theorem failed_voice_service_executes_nothing
  (command : string) (o : FetchOutcome) (p : Page) :
  (exists message, transport_failure o = Some message)
  \/ (exists status r, o = fetch_resolved true status (Normal r)
                       /\ success r = false) ->
  let q := step (VoiceSettled command o) p in
  clicks q = clicks p /\ requests q = requests p /\ timers q = timers p
  /\ window_currentMovement q = window_currentMovement p /\ joy q = joy p
  /\ voiceOutput (dom q) = "Sorry, I could not process that command.".
Proof.
  intros H q. subst q.
  unfold step, dispatch, exec, listener, try_catch.
  rewrite processVoiceCommand_settled_run, callApi_settled_run.
  destruct H as [[message H] | (status & r & -> & Hr)].
  - rewrite (callApi_try_failure o message H). simpl. repeat split.
  - simpl. rewrite Hr. simpl. repeat split.
Qed.

Lemma failed_voice_service_executes_nothing_witness :
  let q := step (VoiceSettled "stop" (fetch_rejected "Failed to fetch"))
                (with_buttons true index_html) in
  clicks q = [] /\ requests q = [].
Proof.
  intros q.
  destruct (failed_voice_service_executes_nothing "stop"
              (fetch_rejected "Failed to fetch") (with_buttons true index_html))
    as (H1 & H2 & _).
  - left. exists "Failed to fetch". reflexivity.
  - split; assumption.
Defined.

Lemma executeVoiceCommand_button (command : string) (d : Direction) :
  voice_direction command = Some d ->
  executeVoiceCommand command
  = match d with
    | Stop => click "stop-btn"
    | _ => (click (button_id d) ;; setTimeout ClickStopButton 2000)%js
    end.
Proof.
  intros H. destruct d;
    try (rewrite (executeVoiceCommand_movement command _ H) by discriminate;
         reflexivity).
  unfold voice_direction in H. unfold executeVoiceCommand.
  repeat match type of H with
  | (if ?b then _ else _) = _ => destruct b
  end; inversion H. reflexivity.
Qed.

(** X11.  A voice command that falls under a movement or stop rule on a page
    without the button of its direction, as on the page of the sources, does
    nothing to the vehicle: no click, no call and no auto-stop timer; once
    the service has accepted the utterance, the only timer set is the one
    that shows the reply, the TypeError is logged and the assistant shows its
    error message. *)
Theorem voice_movement_needs_its_button
  (command : string) (d : Direction) (p : Page) :
  voice_direction command = Some d ->
  has_element (button_id d) p = false ->
  executeVoiceCommand command p
  = (Throw "TypeError: Cannot read properties of null", p)
  /\ (forall (status : Z) (r : ApiResponse),
        success r = true ->
        let q := step (VoiceSettled command
                         (fetch_resolved true status (Normal r))) p in
        clicks q = clicks p /\ requests q = requests p
        /\ timers q
           = insert_timer ((now p + 1000)%Z, DisplayAIResponse r) (timers p)
        /\ console q
           = (console p
              ++ [console_error "Error processing voice command:"
                    (Some "TypeError: Cannot read properties of null")])%list
        /\ voiceOutput (dom q)
           = "Sorry, there was an error processing your command.").
Proof.
  intros Hv Hb.
  assert (E : forall p', has_element (button_id d) p' = false ->
                executeVoiceCommand command p'
                = (Throw "TypeError: Cannot read properties of null", p')).
  { intros p' Hb'. rewrite (executeVoiceCommand_button command d Hv).
    destruct d; try (unfold bind; rewrite (click_missing _ p' Hb'); reflexivity).
    exact (click_missing "stop-btn" p' Hb'). }
  split; [exact (E p Hb) |].
  intros status r Hr q. subst q.
  unfold step, dispatch, exec, listener, try_catch.
  rewrite processVoiceCommand_settled_run, callApi_settled_run.
  cbn [callApi_try negb]. rewrite Hr, E by exact Hb.
  simpl. repeat split.
Qed.

Lemma voice_movement_needs_its_button_witness :
  executeVoiceCommand "turn left" index_html
  = (Throw "TypeError: Cannot read properties of null", index_html).
Proof.
  exact (proj1 (voice_movement_needs_its_button "turn left" Left index_html
                  eq_refl eq_refl)).
Defined.

(** X12.  An utterance that falls under no rule (no movement keyword, no "go to",
    no mapping phrase) changes nothing: no click, no call, no timer. *)
Theorem unmatched_utterance_changes_nothing (command : string) (p : Page) :
  Forall (fun phrase => includes (toLowerCase command) phrase = false)
         ["forward"; "ahead"; "left"; "right"; "back"; "stop"; "go to";
          "start mapping"; "save map"; "save the map"; "load map";
          "load the map"] ->
  executeVoiceCommand command p = (Normal tt, p).
Proof.
  intros H. unfold executeVoiceCommand.
  repeat match goal with
  | H : Forall _ (_ :: _) |- _ => inversion H; clear H; subst
  end.
  repeat match goal with
  | E : includes _ _ = false |- _ => rewrite E; clear E
  end.
  reflexivity.
Qed.

Lemma unmatched_utterance_changes_nothing_witness :
  executeVoiceCommand "what is your battery level" index_html
  = (Normal tt, index_html).
Proof.
  apply unmatched_utterance_changes_nothing.
  repeat constructor.
Defined.

Lemma click_navigate_unselected (p : Page) :
  has_element "navigate-btn" p = true ->
  has_element "destination-select" p = true ->
  destinationValue (dom p) = "" ->
  click "navigate-btn" p
  = (Normal tt,
     with_console
       (fun l => l ++ [console_error "Please select a destination" None])
       (with_clicks (fun l => l ++ ["navigate-btn"]) p))%list.
Proof.
  intros Hn Hs Hv. unfold click. unfold bind at 1.
  rewrite (element_present _ _ Hn). unfold bind, modify.
  cbn [String.eqb Ascii.eqb Bool.eqb].
  unfold listener, async, try_catch, startNavigation. unfold bind at 1.
  rewrite (element_present "destination-select"
             (with_clicks (fun l => l ++ ["navigate-btn"])%list p) Hs).
  unfold bind, gets. cbn [dom with_clicks destinationValue].
  rewrite Hv. reflexivity.
Qed.

(** X13.  The navigate button sends a navigate call for the destination the
    select holds, and only when it holds one: with no destination selected
    it logs "Please select a destination" and calls nothing. *)
Theorem navigation_requires_a_selected_destination (p : Page) :
  has_element "navigate-btn" p = true ->
  has_element "destination-select" p = true ->
  let q := exec (click "navigate-btn") p in
  (destinationValue (dom p) = "" ->
   requests q = requests p
   /\ console q
      = (console p ++ [console_error "Please select a destination" None])%list)
  /\ (destinationValue (dom p) <> "" ->
      requests q
      = (requests p ++ [navigate_request (destinationValue (dom p))])%list
      /\ console q = console p).
Proof.
  intros Hn Hs q. subst q. split.
  - intros Hv. unfold exec. rewrite (click_navigate_unselected p Hn Hs Hv).
    split; reflexivity.
  - intros Hv. unfold exec. rewrite (click_navigate p Hn Hs Hv).
    split; reflexivity.
Qed.

Lemma navigation_requires_a_selected_destination_witness :
  requests (exec (click "navigate-btn") index_html) = [].
Proof.
  exact (proj1 (proj1 (navigation_requires_a_selected_destination index_html
                         eq_refl eq_refl) eq_refl)).
Defined.

(** ** The recognition toggle *)

Lemma Math_floor_bounds (a b : Z) (x : R) :
  IZR a <= x < IZR b -> (a <= Math_floor x < b)%Z.
Proof.
  intros [Ha Hb]. unfold Math_floor.
  destruct (archimed x) as [H1 H2].
  split.
  - assert (H : (a < up x)%Z); [| lia]. apply lt_IZR. lra.
  - assert (H : (up x < b + 1)%Z); [| lia].
    apply lt_IZR. rewrite plus_IZR. lra.
Qed.

Lemma randomCommand_in_commands (random : R) :
  0 <= random < 1 -> In (randomCommand random) commands.
Proof.
  intros H. unfold randomCommand.
  assert (Hb : (0 <= Math_floor (random * 10) < 10)%Z).
  { apply Math_floor_bounds. lra. }
  apply nth_In. simpl. lia.
Qed.

Lemma processVoiceCommand_requests (command : string) (p : Page) :
  requests (exec (async (processVoiceCommand command)) p)
  = (requests p ++ [voice_request command])%list
  /\ timers (exec (async (processVoiceCommand command)) p) = timers p
  /\ clicks (exec (async (processVoiceCommand command)) p) = clicks p.
Proof. repeat split. Qed.

Lemma voice_step_listening_ok (ev : VoiceEvent) (v : VoiceInterface) :
  listening_ok v -> listening_ok (voice_step ev v).
Proof.
  intros (Hoff & Hon & Hfresh).
  destruct ev as [| id random | ev].
  - simpl. unfold toggleVoiceRecognition.
    destruct (isListening v) eqn:Hl.
    + destruct (Hon eq_refl) as (id & due & Hid & Ht).
      unfold listening_ok, stopVoiceRecognition, clearTimeout. simpl.
      rewrite Hid, Ht. simpl. rewrite Nat.eqb_refl. simpl.
      repeat split; [discriminate | intros t []].
    + unfold listening_ok, startVoiceRecognition. simpl.
      rewrite (Hoff eq_refl). simpl.
      repeat split; [discriminate | |].
      * intros _. eexists. eexists. split; reflexivity.
      * intros t [<- | []]. simpl. lia.
  - simpl.
    destruct (find (fun t => Nat.eqb (fst t) id) (recognitionTimers v))
      as [[i due] |] eqn:Hf; [| repeat split; assumption].
    destruct (due <=? now (voice_page v))%Z; [| repeat split; assumption].
    destruct (isListening v) eqn:Hl.
    + destruct (Hon eq_refl) as (id' & due' & Hid & Ht).
      rewrite Ht in Hf. simpl in Hf.
      destruct (Nat.eqb id' id) eqn:E; [| discriminate].
      apply Nat.eqb_eq in E. subst id'.
      unfold listening_ok, recognition_callback, stopVoiceRecognition,
        clearTimeout. simpl.
      rewrite Hid, Ht. simpl. rewrite Nat.eqb_refl. simpl.
      repeat split; [discriminate | intros t []].
    + rewrite (Hoff eq_refl) in Hf. discriminate.
  - simpl. repeat split; assumption.
Qed.

(** X14.  Whatever the user clicks and whatever fires, a recognition timer is
    pending exactly while the interface listens: never more than one, and
    none when it is idle. *)
Theorem one_recognition_timer_while_listening
  (evs : list VoiceEvent) (v : VoiceInterface) :
  listening_ok v ->
  let w := voice_run evs v in
  listening_ok w
  /\ (List.length (recognitionTimers w) <= 1)%nat
  /\ (recognitionTimers w = [] <-> isListening w = false).
Proof.
  intros Hok w.
  assert (H : listening_ok w).
  { subst w. revert v Hok. induction evs as [| ev evs IH]; intros v Hok.
    - exact Hok.
    - apply (IH (voice_step ev v)). apply voice_step_listening_ok. exact Hok. }
  split; [exact H |].
  destruct H as (Hoff & Hon & _).
  destruct (isListening w) eqn:Hl.
  - destruct (Hon eq_refl) as (id & due & _ & Ht). rewrite Ht. simpl.
    split; [lia |]. split; discriminate.
  - rewrite (Hoff eq_refl). simpl. split; [lia |]. split; reflexivity.
Qed.

Lemma one_recognition_timer_while_listening_witness :
  let w := voice_run [VoiceButtonClick; VoiceButtonClick; VoiceButtonClick]
                     (voice_interface index_html) in
  (List.length (recognitionTimers w) <= 1)%nat.
Proof.
  intros w.
  assert (H : listening_ok (voice_interface index_html)).
  { repeat split; simpl; try discriminate. intros t []. }
  exact (proj1 (proj2 (one_recognition_timer_while_listening
                         [VoiceButtonClick; VoiceButtonClick; VoiceButtonClick]
                         (voice_interface index_html) H))).
Defined.

(** X15.  Clicking the voice button while it listens cancels the recognition: the
    interface is idle, the page is as it was, and whichever recognition
    timer is then said to fire, at whatever time, nothing happens, so no
    command is processed. *)
Theorem second_click_cancels_the_recognition (v : VoiceInterface) :
  listening_ok v ->
  isListening v = true ->
  let w := voice_step VoiceButtonClick v in
  isListening w = false
  /\ voice_page w = voice_page v
  /\ forall (evs : list Event) (id : nat) (random : R),
       let w' := voice_run (map PageEvent evs) w in
       voice_step (RecognitionFires id random) w' = w'.
Proof.
  intros Hok Hl w.
  pose proof (voice_step_listening_ok VoiceButtonClick v Hok) as Hw.
  fold w in Hw.
  assert (Hidle : isListening w = false).
  { subst w. simpl. unfold toggleVoiceRecognition. rewrite Hl. reflexivity. }
  split; [exact Hidle |]. split.
  { subst w. simpl. unfold toggleVoiceRecognition. rewrite Hl. reflexivity. }
  intros evs id random w'.
  assert (Ht : recognitionTimers w' = []).
  { destruct Hw as (Hoff & _). specialize (Hoff Hidle).
    subst w'. revert Hoff. generalize w. clear.
    induction evs as [| ev evs IH]; intros w Hoff.
    - exact Hoff.
    - simpl. apply IH. exact Hoff. }
  simpl. rewrite Ht. reflexivity.
Qed.

Lemma second_click_cancels_the_recognition_witness :
  let v := voice_step VoiceButtonClick (voice_interface index_html) in
  let w := voice_run [VoiceButtonClick; PageEvent (Elapse 3000)] v in
  voice_step (RecognitionFires 0 0) w = w.
Proof.
  intros v w.
  assert (H : listening_ok v).
  { apply voice_step_listening_ok.
    repeat split; simpl; try discriminate. intros t []. }
  exact (proj2 (proj2 (second_click_cancels_the_recognition v H eq_refl))
           [Elapse 3000] 0%nat 0).
Defined.

Lemma voice_run_page_events (evs : list Event) (v : VoiceInterface) :
  voice_run (map PageEvent evs) v
  = mkVoiceInterface (run evs (voice_page v)) (isListening v)
                     (recognitionTimeout v) (recognitionTimers v)
                     (nextTimerId v).
Proof.
  revert v. induction evs as [| ev evs IH]; intros v.
  - destruct v. reflexivity.
  - change (voice_run (map PageEvent (ev :: evs)) v)
      with (voice_run (map PageEvent evs) (voice_step (PageEvent ev) v)).
    rewrite IH. reflexivity.
Qed.

(** X16.  Each recognition processes one command.  A click on the voice
    button of an idle interface, at any point of a session, sets one
    recognition timer, due 3000 ms later, whatever happens on the page in
    between.  Fired before it is due, or under another id, it does nothing.
    Fired once due, it makes exactly one voice call, for one of the ten
    simulated commands, clicks no button and sets no page timer at that
    point, and leaves the interface idle with no recognition timer. *)
Theorem recognition_processes_one_command
  (v : VoiceInterface) (evs : list Event) (random : R) :
  listening_ok v ->
  isListening v = false ->
  0 <= random < 1 ->
  let id := nextTimerId v in
  let due := (now (voice_page v) + 3000)%Z in
  let v1 := voice_run (VoiceButtonClick :: map PageEvent evs) v in
  let w := voice_step (RecognitionFires id random) v1 in
  isListening v1 = true
  /\ recognitionTimers v1 = [(id, due)]
  /\ (forall id' : nat,
        id' <> id -> voice_step (RecognitionFires id' random) v1 = v1)
  /\ ((now (voice_page v1) < due)%Z -> w = v1)
  /\ ((due <= now (voice_page v1))%Z ->
      isListening w = false
      /\ recognitionTimers w = []
      /\ In (randomCommand random) commands
      /\ requests (voice_page w)
         = (requests (voice_page v1)
              ++ [voice_request (randomCommand random)])%list
      /\ timers (voice_page w) = timers (voice_page v1)
      /\ clicks (voice_page w) = clicks (voice_page v1)).
Proof.
  intros (Hoff & _ & _) Hl Hr id due v1 w.
  assert (Hv1 : v1 = mkVoiceInterface
                       (run evs (with_dom (set_voiceOutput "Listening...")
                                          (voice_page v)))
                       true (Some id) [(id, due)] (S id)).
  { subst v1.
    change (voice_run (VoiceButtonClick :: map PageEvent evs) v)
      with (voice_run (map PageEvent evs) (voice_step VoiceButtonClick v)).
    rewrite voice_run_page_events. simpl. unfold toggleVoiceRecognition.
    rewrite Hl. unfold startVoiceRecognition. simpl.
    rewrite (Hoff Hl). reflexivity. }
  split; [rewrite Hv1; reflexivity |].
  split; [rewrite Hv1; reflexivity |].
  split; [| split].
  - intros id' Hne. rewrite Hv1. simpl.
    replace (Nat.eqb id id') with false; [reflexivity |].
    symmetry. apply Nat.eqb_neq. congruence.
  - intros Hearly. subst w. rewrite Hv1 in *. simpl in *.
    rewrite Nat.eqb_refl.
    replace (due <=? now (run evs (with_dom (set_voiceOutput "Listening...")
                                            (voice_page v))))%Z with false;
      [reflexivity |].
    symmetry. apply Z.leb_gt. exact Hearly.
  - intros Hdue. subst w. rewrite Hv1 in *. simpl in *.
    rewrite Nat.eqb_refl.
    replace (due <=? now (run evs (with_dom (set_voiceOutput "Listening...")
                                            (voice_page v))))%Z with true
      by (symmetry; apply Z.leb_le; exact Hdue).
    split; [reflexivity |]. split; [reflexivity |].
    split; [exact (randomCommand_in_commands random Hr) |].
    repeat split.
Qed.

Lemma recognition_processes_one_command_witness :
  let v1 := voice_run [VoiceButtonClick;
                       PageEvent (KeyDown (on_body "ArrowUp"));
                       PageEvent (Elapse 3000)]
                      (voice_interface index_html) in
  let w := voice_step (RecognitionFires 0 (1 / 2)) v1 in
  In (randomCommand (1 / 2)) commands
  /\ isListening w = false
  /\ requests (voice_page w)
     = (requests (voice_page v1) ++ [voice_request (randomCommand (1 / 2))])%list.
Proof.
  intros v1 w.
  assert (Hok : listening_ok (voice_interface index_html)).
  { repeat split; simpl; try discriminate. intros t []. }
  assert (Hr : 0 <= 1 / 2 < 1) by lra.
  destruct (recognition_processes_one_command (voice_interface index_html)
              [KeyDown (on_body "ArrowUp"); Elapse 3000] (1 / 2)
              Hok eq_refl Hr) as (_ & _ & _ & _ & Hfire).
  assert (Hdue : (now (voice_page (voice_interface index_html)) + 3000
                  <= now (voice_page v1))%Z).
  { vm_compute. discriminate. }
  destruct (Hfire Hdue) as (H1 & _ & H3 & H4 & _).
  repeat split; assumption.
Defined.

(** ** The simulated battery *)

(** X17.  The battery level [updateBatteryStatus] shows is an integer from 20 to
    99, never 100, and the indicator is red exactly below 30, that is when
    [Math.random()] returned less than one eighth. *)
Theorem battery_level_range_and_colour (random : R) :
  0 <= random < 1 ->
  (20 <= batteryLevel random <= 99)%Z
  /\ (batteryColor (batteryLevel random) = "#f44336" <-> random < 1 / 8).
Proof.
  intros Hr. unfold batteryLevel.
  assert (Hb : (0 <= Math_floor (random * 80) < 80)%Z).
  { apply Math_floor_bounds. lra. }
  split; [lia |].
  unfold batteryColor.
  destruct (Rlt_le_dec random (1 / 8)) as [Hlt | Hge].
  - assert (Hf : (0 <= Math_floor (random * 80) < 10)%Z).
    { apply Math_floor_bounds. lra. }
    replace (Math_floor (random * 80) + 20 <? 30)%Z with true
      by (symmetry; apply Z.ltb_lt; lia).
    split; [intros _; exact Hlt | reflexivity].
  - assert (Hf : (10 <= Math_floor (random * 80) < 80)%Z).
    { apply Math_floor_bounds. lra. }
    replace (Math_floor (random * 80) + 20 <? 30)%Z with false
      by (symmetry; apply Z.ltb_ge; lia).
    split; [discriminate | intros H; lra].
Qed.

Lemma battery_level_range_and_colour_witness :
  (20 <= batteryLevel (1 / 2) <= 99)%Z.
Proof.
  assert (H : 0 <= 1 / 2 < 1) by lra.
  exact (proj1 (battery_level_range_and_colour (1 / 2) H)).
Defined.

(** ** A whole drag *)

Lemma drag_sends_every_move (moves : list PointerEvent) (p : Page) :
  isDragging (joy p) = true ->
  Forall (fun e => pointer e <> None) moves ->
  isDragging (joy (run (map PointerMove moves) p)) = true
  /\ List.length (requests (run (map PointerMove moves) p))
     = (List.length (requests p) + List.length moves)%nat.
Proof.
  revert p. induction moves as [| e moves IH]; intros p Hd Hall.
  - simpl. split; [exact Hd | lia].
  - inversion Hall as [| e' l He Hrest]; subst.
    destruct (pointer e) as [[cx cy] |] eqn:Hp; [| contradiction].
    change (run (map PointerMove (e :: moves)) p)
      with (run (map PointerMove moves) (step (PointerMove e) p)).
    assert (Hd' : isDragging (joy (step (PointerMove e) p)) = true).
    { destruct (step_PointerMove_keeps_dragging e p) as [E _].
      rewrite E. exact Hd. }
    destruct (IH (step (PointerMove e) p) Hd' Hrest) as [H1 H2].
    split; [exact H1 |].
    rewrite H2, (step_PointerMove_sends e cx cy p Hd Hp). simpl.
    rewrite length_app. simpl. lia.
Qed.

(** X18.  Nothing is coalesced: a drag made of a press, [n] moves and a release
    sends [n + 2] commands, one for the press, one for each move and the
    final stop. *)
Theorem every_move_of_a_drag_sends_a_command
  (p : Page) (e0 : PointerEvent) (moves : list PointerEvent) :
  Forall (fun e => pointer e <> None) (e0 :: moves) ->
  let q := run (PointerDown e0 :: map PointerMove moves ++ [PointerUp]) p in
  List.length (requests q)
  = (List.length (requests p) + List.length moves + 2)%nat
  /\ last (requests q) (movement_request Stop 0) = movement_request Stop 0.
Proof.
  intros Hall q. subst q.
  inversion Hall as [| e' l He0 Hrest]; subst.
  destruct (pointer e0) as [[cx cy] |] eqn:Hp; [| contradiction].
  change (run (PointerDown e0 :: map PointerMove moves ++ [PointerUp]) p)
    with (run (map PointerMove moves ++ [PointerUp]) (step (PointerDown e0) p)).
  rewrite run_app.
  assert (Hlen0 : List.length (requests (step (PointerDown e0) p))
                  = (List.length (requests p) + 1)%nat).
  { rewrite step_PointerDown_run.
    match goal with |- context [step (PointerMove e0) ?x] =>
      rewrite (step_PointerMove_sends e0 cx cy x eq_refl Hp)
    end.
    simpl. rewrite length_app. reflexivity. }
  destruct (step_PointerDown_starts_dragging e0 p) as [Hd0 _].
  destruct (drag_sends_every_move moves (step (PointerDown e0) p) Hd0 Hrest)
    as [Hd1 Hlen].
  set (p1 := run (map PointerMove moves) (step (PointerDown e0) p)) in *.
  change (run [PointerUp] p1) with (step PointerUp p1).
  destruct (step_PointerUp_dragging p1 Hd1) as (_ & Hr & _).
  rewrite Hr. split.
  - rewrite length_app, Hlen, Hlen0. simpl. lia.
  - apply last_last.
Qed.

Lemma every_move_of_a_drag_sends_a_command_witness :
  List.length
    (requests
       (run (PointerDown (MouseEvent 60 50)
             :: map PointerMove [MouseEvent 70 50; MouseEvent 80 50;
                                 MouseEvent 80 50]
             ++ [PointerUp]) index_html))
  = 5%nat.
Proof.
  assert (H : Forall (fun e => pointer e <> None)
                [MouseEvent 60 50; MouseEvent 70 50; MouseEvent 80 50;
                 MouseEvent 80 50]).
  { repeat constructor; discriminate. }
  exact (proj1 (every_move_of_a_drag_sends_a_command index_html
                  (MouseEvent 60 50)
                  [MouseEvent 70 50; MouseEvent 80 50; MouseEvent 80 50] H)).
Defined.
